(** * httpx: a retrying HTTP executor over a body-preserving logging round tripper

    A shallow embedding of [httpx.go] (the retrying client) and of the
    [logger] package (the logging round tripper), followed by the properties
    of the specification that were checked against them.

    Go values are embedded as follows.
    - [int], [int64] and [time.Duration] are [Z]; where the source can leave
      the 64-bit range ([waitBeforeRetry]) the wrap-around is written out
      with the operations of module [Int64].
    - A [[]byte] is a [list byte]; a nil slice is [None], so a buffered body
      is an [option (list byte)].
    - An [io.ReadCloser] is a reference (an index) into a heap of streams kept
      in the [World]; reading a stream consumes it, so aliasing and single use
      are visible.
    - A Go function that returns a response pointer and an error returns a
      pair of options, so that "a response and an error" and "neither" are
      expressible.
    - Everything the code does to the outside (reading and closing streams,
      calling the transport, sleeping, logging) is recorded in the trace of
      the [World], newest event first.
    - The transport below the code ([http.Client.Do] for the executor,
      [next.RoundTrip] for the logging round tripper), the firing of the
      caller's context and the clock are an environment [Env] of oracles. *)

From Stdlib Require Import ZArith Lia String Ascii Strings.Byte List DecimalString Bool.
From stdpp Require Import base list strings.

Local Open Scope Z_scope.

(** ** 64-bit integers *)

Module Int64.

Definition min_int : Z := - 2 ^ 63.
Definition max_int : Z := 2 ^ 63 - 1.

Definition in_range (z : Z) : Prop := min_int <= z <= max_int.

(** Two's complement reduction of a mathematical integer. *)
Definition wrap (z : Z) : Z := (z + 2 ^ 63) mod 2 ^ 64 - 2 ^ 63.

Definition sub (x y : Z) : Z := wrap (x - y).
Definition mul (x y : Z) : Z := wrap (x * y).

(** The conversion [uint(x)] of an [int]. *)
Definition to_uint (x : Z) : Z := x mod 2 ^ 64.

(** [x << s] for an unsigned count [s]: counts of 64 and more give 0. *)
Definition shl (x s : Z) : Z := if 64 <=? s then 0 else wrap (Z.shiftl x s).

End Int64.

(** ** Errors *)

(** [errors.New] and [fmt.Errorf]: an error carries its text, and the error
    it wraps when it was built with the verb [%w]. *)
Inductive error : Type :=
| errorString (s : string)
| wrapError (msg : string) (err : error).

Definition Error (e : error) : string :=
  match e with
  | errorString s => s
  | wrapError msg _ => msg
  end.

Definition Unwrap (e : error) : option error :=
  match e with
  | errorString _ => None
  | wrapError _ err => Some err
  end.

(** The verb [%d]. *)
Definition fmt_d (n : Z) : string := NilZero.string_of_int (Z.to_int n).

(** ** Streams, requests, responses *)

Record Stream : Type := {
  s_data : list byte;        (* the bytes a reader still gets *)
  s_err : option error;      (* the error that ends the read, nil for EOF *)
  s_closed : bool
}.

Record Request : Type := {
  Method : string;
  URL : string;
  Body : option nat          (* req.Body, nil or a stream of the heap *)
}.

Record Response : Type := {
  StatusCode : Z;
  RespBody : option nat      (* resp.Body *)
}.

Definition Result : Type := (option Response * option error)%type.

(** ** Log records *)

Inductive Level : Type := LevelDebug | LevelInfo | LevelWarn | LevelError.

Inductive Attr : Type :=
| AInt (n : Z)               (* slog.Int *)
| AString (s : string)       (* slog.String *)
| ADuration (d : Z)          (* slog.Duration *)
| AAny (e : error).          (* slog.Any with an error *)

(** ** The world *)

Inductive Wake : Type := TimerFired | CtxDone.

Inductive Event : Type :=
| EvReadAll (sid : nat)
| EvClose (sid : nat)
| EvRoundTrip (idx : nat) (body : option nat) (seen : option (list byte)) (cancelled : bool)
| EvSleep (delay : Z) (woke : Wake)
| EvLog (lvl : Level) (msg : string) (attrs : list (string * Attr)).

Record World : Type := {
  heap : list Stream;
  trace : list Event;        (* newest first *)
  n_calls : nat;             (* transport invocations so far *)
  n_waits : nat;             (* backoff waits so far *)
  cancelled : bool           (* ctx.Done() is closed *)
}.

(** What the transport answers: an error, or a status and a body (nil, or
    its bytes and the error its read ends with). *)
Inductive Reply : Type :=
| ReplyErr (e : error)
| ReplyResp (status : Z) (body : option (list byte * option error)).

Record Env : Type := {
  (** the answer to invocation [idx], given the request, the bytes its body
      holds and whether the context is already cancelled *)
  transport : nat -> Request -> option (list byte) -> bool -> Reply;
  (** whether the context is cancelled before the timer of wait [i] fires *)
  ctx_fires : nat -> bool;
  (** the wall-clock time invocation [idx] takes *)
  elapsed : nat -> Z
}.

(** ** The monad of the embedding: state, panics, fuel *)

Inductive Outcome (A : Type) : Type :=
| Ret (a : A)
| Panic (msg : string)
| OutOfFuel.
Arguments Ret {A} a.
Arguments Panic {A} msg.
Arguments OutOfFuel {A}.

Definition M (A : Type) : Type := World -> Outcome A * World.

Definition ret {A} (a : A) : M A := fun w => (Ret a, w).

Definition bind {A B} (m : M A) (k : A -> M B) : M B :=
  fun w =>
    match m w with
    | (Ret a, w') => k a w'
    | (Panic msg, w') => (Panic msg, w')
    | (OutOfFuel, w') => (OutOfFuel, w')
    end.

Definition panic {A} (msg : string) : M A := fun w => (Panic msg, w).

Notation "'let*' x ':=' m 'in' k" := (bind m (fun x => k))
  (at level 10, x name, m at level 100, k at level 200).
Notation "'let*' ' p ':=' m 'in' k" := (bind m (fun x => match x with p => k end))
  (at level 10, p pattern, m at level 100, k at level 200).
Notation "m '>>' k" := (bind m (fun _ => k))
  (at level 190, right associativity).

Definition nil_deref : string := "invalid memory address or nil pointer dereference".
Definition slice_bounds : string := "slice bounds out of range".

(** ** Primitive operations *)

Definition emit (e : Event) : M unit := fun w =>
  (Ret tt, {| heap := heap w; trace := e :: trace w; n_calls := n_calls w;
              n_waits := n_waits w; cancelled := cancelled w |}).

(** The four [slog.Logger] methods. *)
Definition log (lvl : Level) (msg : string) (attrs : list (string * Attr)) : M unit :=
  emit (EvLog lvl msg attrs).

Definition drained (s : Stream) : Stream :=
  {| s_data := []; s_err := s_err s; s_closed := s_closed s |}.

Definition closed (s : Stream) : Stream :=
  {| s_data := s_data s; s_err := s_err s; s_closed := true |}.

Definition set_heap (h : list Stream) (w : World) : World :=
  {| heap := h; trace := trace w; n_calls := n_calls w;
     n_waits := n_waits w; cancelled := cancelled w |}.

(** [io.ReadAll]: everything the stream still holds and the error that ended
    the read; the stream is empty afterwards. *)
Definition ReadAll (sid : nat) : M (list byte * option error) := fun w =>
  match heap w !! sid with
  | None => (Panic nil_deref, w)
  | Some s =>
      (Ret (s_data s, s_err s),
       {| heap := <[sid := drained s]> (heap w); trace := EvReadAll sid :: trace w;
          n_calls := n_calls w; n_waits := n_waits w; cancelled := cancelled w |})
  end.

(** [Close] of an [io.ReadCloser]; its error is dropped at every call site. *)
Definition Close (sid : nat) : M unit := fun w =>
  match heap w !! sid with
  | None => (Panic nil_deref, w)
  | Some s =>
      (Ret tt,
       {| heap := <[sid := closed s]> (heap w); trace := EvClose sid :: trace w;
          n_calls := n_calls w; n_waits := n_waits w; cancelled := cancelled w |})
  end.

(** [io.NopCloser(bytes.NewReader(data))]: a new stream over [data]. *)
Definition NewReader (data : list byte) : M nat := fun w =>
  (Ret (length (heap w)),
   set_heap (heap w ++ [{| s_data := data; s_err := None; s_closed := false |}]) w).

(** [data[:limit]], entered only when [limit < len(data)]. *)
Definition slice_to (data : list byte) (limit : Z) : M (list byte) :=
  if (limit <? 0) || (Z.of_nat (length data) <? limit)
  then panic slice_bounds
  else ret (take (Z.to_nat limit) data).

(** The [select] of [waitBeforeRetry]: the timer or [ctx.Done()], whichever
    comes first.  A context that fires stays cancelled. *)
Definition select_wait (env : Env) (delay : Z) : M Wake := fun w =>
  let woke := if cancelled w || ctx_fires env (n_waits w) then CtxDone else TimerFired in
  (Ret woke,
   {| heap := heap w; trace := EvSleep delay woke :: trace w; n_calls := n_calls w;
      n_waits := S (n_waits w);
      cancelled := match woke with CtxDone => true | TimerFired => cancelled w end |}).

(** ** The transport

    One exchange with the black-box transport.  The transport reads the
    request body to its end and closes it, answers as the oracle says, and
    the body of the answer becomes a new stream of the heap.  This is
    [next.RoundTrip] of the logging round tripper: the response body may be
    nil. *)
Definition take_body (b : option nat) (h : list Stream)
  : option (option (list byte) * list Stream) :=
  match b with
  | None => Some (None, h)
  | Some sid =>
      match h !! sid with
      | None => None
      | Some s => Some (Some (s_data s), <[sid := closed (drained s)]> h)
      end
  end.

Definition Transport_RoundTrip (env : Env) (req : Request) : M Result := fun w =>
  match take_body (Body req) (heap w) with
  | None => (Panic nil_deref, w)
  | Some (seen, h) =>
      let idx := n_calls w in
      let tr := EvRoundTrip idx (Body req) seen (cancelled w) :: trace w in
      match transport env idx req seen (cancelled w) with
      | ReplyErr e =>
          (Ret (None, Some e),
           {| heap := h; trace := tr; n_calls := S idx;
              n_waits := n_waits w; cancelled := cancelled w |})
      | ReplyResp status None =>
          (Ret (Some {| StatusCode := status; RespBody := None |}, None),
           {| heap := h; trace := tr; n_calls := S idx;
              n_waits := n_waits w; cancelled := cancelled w |})
      | ReplyResp status (Some (data, err)) =>
          (Ret (Some {| StatusCode := status; RespBody := Some (length h) |}, None),
           {| heap := h ++ [{| s_data := data; s_err := err; s_closed := false |}];
              trace := tr; n_calls := S idx;
              n_waits := n_waits w; cancelled := cancelled w |})
      end
  end.

(** [http.Client.Do], the capability the executor calls.  Of what net/http
    does around the transport only its documented guarantee is kept: when
    the error is nil the response has a non-nil body (an empty one is put in
    the place of a nil one). *)
Definition HttpClient_Do (env : Env) (req : Request) : M Result :=
  let* r := Transport_RoundTrip env req in
  match r with
  | (Some resp, None) =>
      match RespBody resp with
      | Some _ => ret r
      | None =>
          let* b := NewReader [] in
          ret (Some {| StatusCode := StatusCode resp; RespBody := Some b |}, None)
      end
  | _ => ret r
  end.

(** ** httpx.go *)

Definition Millisecond : Z := 1000000.
Definition Second : Z := 1000 * Millisecond.

Definition defaultRetries : Z := 1.
Definition defaultHTTPTimeout : Z := 10 * Second.
Definition defaultRetryDelay : Z := 100 * Millisecond.
Definition defaultMaxRetryWait : Z := 5 * Second.

(** The struct [client].  Its [HttpClient] is the environment; the field
    kept here is the [Timeout] that [WithTimeout] sets.  The [Logger] is the
    trace. *)
Record client : Type := {
  Timeout : Z;
  Retries : Z;
  RetryDelay : Z;
  MaxRetryWait : Z
}.

Definition ClientOption : Type := client -> client.

Definition WithRetries (n : Z) : ClientOption := fun c =>
  {| Timeout := Timeout c; Retries := n;
     RetryDelay := RetryDelay c; MaxRetryWait := MaxRetryWait c |}.

Definition WithTimeout (d : Z) : ClientOption := fun c =>
  {| Timeout := d; Retries := Retries c;
     RetryDelay := RetryDelay c; MaxRetryWait := MaxRetryWait c |}.

Definition WithRetryDelay (d : Z) : ClientOption := fun c =>
  {| Timeout := Timeout c; Retries := Retries c;
     RetryDelay := d; MaxRetryWait := MaxRetryWait c |}.

Definition WithMaxRetryWait (d : Z) : ClientOption := fun c =>
  {| Timeout := Timeout c; Retries := Retries c;
     RetryDelay := RetryDelay c; MaxRetryWait := d |}.

Definition New (opts : list ClientOption) : client :=
  fold_left (fun c opt => opt c) opts
    {| Timeout := defaultHTTPTimeout; Retries := defaultRetries;
       RetryDelay := defaultRetryDelay; MaxRetryWait := defaultMaxRetryWait |}.

Definition StatusTooManyRequests : Z := 429.
Definition StatusRequestTimeout : Z := 408.

(** shouldRetry determines if a request should be retried based on the
    status code. *)
Definition shouldRetry (statusCode : Z) : bool :=
  (statusCode =? StatusTooManyRequests) ||
  (statusCode =? StatusRequestTimeout) ||
  ((statusCode >=? 500) && (statusCode <? 600)).

(** The value of the variable [delay] of [waitBeforeRetry] when the wait
    starts: [c.RetryDelay * time.Duration(1<<uint(attempt-1))] in 64-bit
    arithmetic, capped at [c.MaxRetryWait]. *)
Definition retryDelay (c : client) (attempt : Z) : Z :=
  let delay :=
    Int64.mul (RetryDelay c) (Int64.shl 1 (Int64.to_uint (Int64.sub attempt 1))) in
  if delay >? MaxRetryWait c then MaxRetryWait c else delay.

(** waitBeforeRetry implements exponential backoff.  Both cases of its
    [select] return, and the function has no result. *)
Definition waitBeforeRetry (env : Env) (c : client) (attempt : Z) : M unit :=
  let delay := retryDelay c attempt in
  log LevelDebug "waiting before retry"
    [("delay", ADuration delay); ("attempt", AInt attempt)] >>
  let* woke := select_wait env delay in
  match woke with
  | TimerFired => ret tt
  | CtxDone => ret tt
  end.

Definition Errorf_read_body (err : error) : error :=
  wrapError ("failed to read request body: " +:+ Error err) err.

Definition Errorf_attempts (n : Z) (err : error) : error :=
  wrapError ("request failed after " +:+ fmt_d n +:+ " attempts: " +:+ Error err) err.

Definition Errorf_unknown (n : Z) : error :=
  errorString ("request failed after " +:+ fmt_d n +:+ " attempts with unknown error").

(** The statements after the loop of [Do]. *)
Definition Do_fallthrough (c : client) (lastErr : option error) : M Result :=
  match lastErr with
  | Some err => ret (None, Some (Errorf_attempts (Retries c) err))
  | None => ret (None, Some (Errorf_unknown (Retries c)))
  end.

(** What one iteration of the loop of [Do] ends with: a [return], or
    [continue] with the locals [req] and [lastErr] as they are then. *)
Inductive Step : Type :=
| Return (r : Result)
| Continue (req : Request) (lastErr : option error).

(** [if bodyBytes != nil { req.Body = io.NopCloser(bytes.NewReader(bodyBytes)) }] *)
Definition restore_body (bodyBytes : option (list byte)) (req : Request) : M Request :=
  match bodyBytes with
  | Some data =>
      let* r := NewReader data in
      ret {| Method := Method req; URL := URL req; Body := Some r |}
  | None => ret req
  end.

(** The body of the loop of [Do], at iteration [attempt]. *)
Definition Do_attempt (env : Env) (c : client) (req : Request)
    (bodyBytes : option (list byte)) (lastErr : option error) (attempt : Z)
    : M Step :=
  (* Restore request body for each attempt *)
  let* req := restore_body bodyBytes req in
  let* '(resp, err) := HttpClient_Do env req in
  match err with
  | Some err =>
      log LevelWarn "request attempt failed"
        [("attempt", AInt attempt); ("max_retries", AInt (Retries c));
         ("method", AString (Method req)); ("url", AString (URL req));
         ("error", AAny err)] >>
      (* Don't retry if it's the last attempt *)
      if attempt >=? Retries c then
        ret (Return (None, Some (Errorf_attempts (Retries c) err)))
      else
        (* Wait before retry with exponential backoff *)
        waitBeforeRetry env c attempt >>
        ret (Continue req (Some err))
  | None =>
      match resp with
      | None => panic nil_deref
      | Some resp =>
          (* Check if we should retry based on status code *)
          if shouldRetry (StatusCode resp) && (attempt <? Retries c) then
            (* Close the response body before retry *)
            match RespBody resp with
            | None => panic nil_deref
            | Some b =>
                Close b >>
                log LevelWarn "retrying due to status code"
                  [("status", AInt (StatusCode resp)); ("attempt", AInt attempt);
                   ("max_retries", AInt (Retries c)); ("url", AString (URL req))] >>
                waitBeforeRetry env c attempt >>
                ret (Continue req lastErr)
            end
          else
            (* Success *)
            ret (Return (Some resp, None))
      end
  end.

(** The loop [for attempt := 1; attempt <= c.Retries; attempt++] of [Do],
    entered at [attempt].  [attempt++] is reached only after a [continue],
    that is when [attempt < c.Retries], so it never leaves the range of
    [int].  One unit of fuel is one iteration. *)
Fixpoint Do_loop (env : Env) (c : client) (fuel : nat) (req : Request)
    (bodyBytes : option (list byte)) (lastErr : option error) (attempt : Z)
    : M Result :=
  if attempt <=? Retries c then
    match fuel with
    | O => fun w => (OutOfFuel, w)
    | S fuel' =>
        let* s := Do_attempt env c req bodyBytes lastErr attempt in
        match s with
        | Return r => ret r
        | Continue req lastErr =>
            Do_loop env c fuel' req bodyBytes lastErr (attempt + 1)
        end
    end
  else Do_fallthrough c lastErr.

(** [Do].  The context argument is the cancellation state of the world; a
    nil context is replaced by the one of the request, and the request is
    rebound to it, neither of which changes what is modelled here.  The loop
    gets as much fuel as it has iterations. *)
Definition Do (env : Env) (c : client) (req : Request) : M Result :=
  match Body req with
  | Some body =>
      (* Preserve request body for retries *)
      let* '(bodyBytes, lastErr) := ReadAll body in
      match lastErr with
      | Some err => ret (None, Some (Errorf_read_body err))
      | None =>
          Close body >>
          Do_loop env c (Z.to_nat (Retries c)) req (Some bodyBytes) None 1
      end
  | None =>
      Do_loop env c (Z.to_nat (Retries c)) req None None 1
  end.

(** ** The package logger *)

Module logger.

Definition defaultMaxBodySize : Z := 5 * 1024 * 1024.

(** The struct [LoggingRoundTripper].  Its [logger] is the trace and its
    [next] is the transport of the environment. *)
Record LoggingRoundTripper : Type := {
  logBodies : bool;
  maxBodySize : Z
}.

Definition LoggingOption : Type := LoggingRoundTripper -> LoggingRoundTripper.

Definition WithBodyLogging (enabled : bool) : LoggingOption := fun l =>
  {| logBodies := enabled; maxBodySize := maxBodySize l |}.

Definition WithMaxBodySize (size : Z) : LoggingOption := fun l =>
  {| logBodies := logBodies l; maxBodySize := size |}.

Definition NewLoggingRoundTripper (opts : list LoggingOption) : LoggingRoundTripper :=
  fold_left (fun l opt => opt l) opts
    {| logBodies := false; maxBodySize := defaultMaxBodySize |}.

(** readBody reads the body content, limits it for logging, and returns a
    new reader so the body can be read again by subsequent handlers. *)
Definition readBody (body : nat) (limit : Z)
  : M (option (list byte) * nat * option error) :=
  let* '(data, err) := ReadAll body in
  Close body >>
  match err with
  | Some err =>
      let* r := NewReader [] in
      ret (None, r, Some err)
  | None =>
      (* Determine how much data to return for logging *)
      let* logBytes :=
        if Z.of_nat (length data) >? limit then slice_to data limit else ret data in
      (* Return a new reader with the full data so it can be read again *)
      let* r := NewReader data in
      ret (Some logBytes, r, None)
  end.

(** [string(bodyData)]; a nil slice gives the empty string. *)
Definition string_of_bytes (b : option (list byte)) : string :=
  match b with
  | Some data => string_of_list_byte data
  | None => EmptyString
  end.

(** [logRequest] assigns [req.Body]; the request it returns is the request
    after the call. *)
Definition logRequest (l : LoggingRoundTripper) (req : Request) : M Request :=
  if negb (logBodies l) then ret req
  else
    match Body req with
    | None => ret req
    | Some body =>
        let* '(bodyData, newReader, err) := readBody body (maxBodySize l) in
        let req := {| Method := Method req; URL := URL req; Body := Some newReader |} in
        match err with
        | Some err =>
            log LevelWarn "failed to read request body" [("error", AAny err)] >>
            ret req
        | None =>
            log LevelDebug "http request body"
              [("body", AString (string_of_bytes bodyData))] >>
            ret req
        end
    end.

Definition logRequestError (req : Request) (duration : Z) (err : error) : M unit :=
  log LevelError "http request failed"
    [("method", AString (Method req)); ("url", AString (URL req));
     ("duration", ADuration duration); ("error", AAny err)].

(** [logResponse] assigns [resp.Body]; the response it returns is the
    response after the call. *)
Definition logResponse (l : LoggingRoundTripper) (req : Request) (resp : Response)
    (duration : Z) : M Response :=
  let* resp :=
    if logBodies l then
      match RespBody resp with
      | None => ret resp
      | Some body =>
          let* '(bodyData, newReader, err) := readBody body (maxBodySize l) in
          let resp := {| StatusCode := StatusCode resp; RespBody := Some newReader |} in
          match err with
          | Some err =>
              log LevelWarn "failed to read response body" [("error", AAny err)] >>
              ret resp
          | None =>
              log LevelDebug "http response body"
                [("body", AString (string_of_bytes bodyData))] >>
              ret resp
          end
      end
    else ret resp in
  log LevelInfo "http request completed"
    [("method", AString (Method req)); ("url", AString (URL req));
     ("status", AInt (StatusCode resp)); ("duration", ADuration duration)] >>
  ret resp.

(** [RoundTrip]; [time.Since(start)] is the time the environment gives to
    the invocation. *)
Definition RoundTrip (env : Env) (l : LoggingRoundTripper) (req : Request) : M Result :=
  let* req := logRequest l req in
  let* idx := (fun w => (Ret (n_calls w), w)) in
  let* '(resp, err) := Transport_RoundTrip env req in
  let duration := elapsed env idx in
  match err with
  | Some err =>
      logRequestError req duration err >>
      ret (None, Some err)
  | None =>
      match resp with
      | None => panic nil_deref
      | Some resp =>
          let* resp := logResponse l req resp duration in
          ret (Some resp, None)
      end
  end.

End logger.


(** ** Reading the trace *)

(** One invocation of the transport, as the trace records it. *)
Record Invocation : Type := {
  inv_idx : nat;                      (* how many invocations came before *)
  inv_body : option nat;              (* the stream attached to the request *)
  inv_seen : option (list byte);      (* the bytes the transport got from it *)
  inv_cancelled : bool                (* the context was cancelled already *)
}.

(** The invocations of the transport in a trace, newest first. *)
Fixpoint round_trips (tr : list Event) : list Invocation :=
  match tr with
  | [] => []
  | EvRoundTrip idx body seen cn :: tr' =>
      {| inv_idx := idx; inv_body := body; inv_seen := seen; inv_cancelled := cn |}
      :: round_trips tr'
  | _ :: tr' => round_trips tr'
  end.

(** How often [io.ReadAll] was called on the stream [sid]. *)
Fixpoint reads_of (sid : nat) (tr : list Event) : nat :=
  match tr with
  | [] => O
  | EvReadAll sid' :: tr' =>
      if Nat.eqb sid sid' then S (reads_of sid tr') else reads_of sid tr'
  | _ :: tr' => reads_of sid tr'
  end.

(** The request and the locals of [Do] agree: without buffered bytes the
    request has no body. *)
Definition body_inv (bodyBytes : option (list byte)) (req : Request) : Prop :=
  bodyBytes = None -> Body req = None.

(** The body of the request, if any, is a stream of the heap. *)
Definition body_valid (req : Request) (w : World) : Prop :=
  forall sid, Body req = Some sid -> is_Some (heap w !! sid).

(** Exactly one of the response and the error is nil. *)
Definition exactly_one (r : Result) : Prop :=
  match r with
  | (Some _, None) | (None, Some _) => True
  | _ => False
  end.

(** [w'] comes after [w] by events that are neither invocations of the
    transport nor reads: nothing is called, no stream disappears. *)
Definition silent (w w' : World) : Prop :=
  n_calls w' = n_calls w /\
  length (heap w) = length (heap w') /\
  exists evs, trace w' = evs ++ trace w /\ round_trips evs = [] /\
              forall sid, reads_of sid evs = O.

(** What the iteration [attempt] of the loop of [Do] ends with, read off the
    result [r] of its call of the transport. *)
Definition step_of (c : client) (lastErr : option error) (attempt : Z)
    (req : Request) (r : Result) : option Step :=
  match r with
  | (_, Some err) =>
      Some (if attempt >=? Retries c
            then Return (None, Some (Errorf_attempts (Retries c) err))
            else Continue req (Some err))
  | (Some resp, None) =>
      Some (if shouldRetry (StatusCode resp) && (attempt <? Retries c)
            then Continue req lastErr
            else Return (Some resp, None))
  | (None, None) => None
  end.

(** The invocation [i] got the bytes [bs] from a stream that was created
    when the heap had between [lo] and [hi] streams. *)
Definition replayed (bs : list byte) (lo hi : nat) (i : Invocation) : Prop :=
  inv_seen i = Some bs /\
  exists b, inv_body i = Some b /\ (lo <= b < hi)%nat.

(** The world after [Do] has read and closed the body [sid] of the request. *)
Definition after_read (sid : nat) (s : Stream) (w : World) : World :=
  {| heap := <[sid := closed (drained s)]> (<[sid := drained s]> (heap w));
     trace := EvClose sid :: EvReadAll sid :: trace w;
     n_calls := n_calls w; n_waits := n_waits w; cancelled := cancelled w |}.

(** The transport answers every invocation with a response of status 500. *)
Definition always_500 (env : Env) : Prop :=
  forall idx req seen cn, exists body, transport env idx req seen cn = ReplyResp 500 body.

(** The body of the request, if there is one, is a stream of the heap whose
    read ends without an error. *)
Definition body_readable (req : Request) (w : World) : Prop :=
  forall sid, Body req = Some sid -> exists s, heap w !! sid = Some s /\ s_err s = None.

(** The backoff waits of a trace with what ended them, newest first. *)
Fixpoint sleeps (tr : list Event) : list (Z * Wake) :=
  match tr with
  | [] => []
  | EvSleep delay woke :: tr' => (delay, woke) :: sleeps tr'
  | _ :: tr' => sleeps tr'
  end.

(** The records of one level and message in a trace, newest first. *)
Fixpoint logged (lvl : Level) (msg : string) (tr : list Event)
  : list (list (string * Attr)) :=
  match tr with
  | [] => []
  | EvLog lvl' msg' attrs :: tr' =>
      if (match lvl, lvl' with
          | LevelDebug, LevelDebug | LevelInfo, LevelInfo
          | LevelWarn, LevelWarn | LevelError, LevelError => true
          | _, _ => false
          end) && String.eqb msg msg'
      then attrs :: logged lvl msg tr'
      else logged lvl msg tr'
  | _ :: tr' => logged lvl msg tr'
  end.

(** ** Sample inputs *)

Definition payload : list byte :=
  [x70; x61; x79; x6c; x6f; x61; x64]%byte.

Definition readable (data : list byte) : Stream :=
  {| s_data := data; s_err := None; s_closed := false |}.

Definition failing (e : error) : Stream :=
  {| s_data := []; s_err := Some e; s_closed := false |}.

Definition world_of (h : list Stream) : World :=
  {| heap := h; trace := []; n_calls := O; n_waits := O; cancelled := false |}.

(** A POST whose body is the stream 0. *)
Definition post : Request :=
  {| Method := "POST"; URL := "http://example.test/"; Body := Some O |}.

(** A GET without body. *)
Definition get : Request :=
  {| Method := "GET"; URL := "http://example.test/"; Body := None |}.

Definition read_error : error := errorString "read error".
Definition context_canceled : error := errorString "context canceled".

(** A server that answers the status [status], always. *)
Definition server (status : Z) : Env :=
  {| transport := fun _ _ _ _ => ReplyResp status (Some ([], None));
     ctx_fires := fun _ => false;
     elapsed := fun _ => 5 * Millisecond |}.

(** A server that answers 500, a caller that cancels during the first
    backoff wait, and a transport that fails at once under a cancelled
    context, as net/http does. *)
Definition cancelled_in_backoff : Env :=
  {| transport := fun _ _ _ cn =>
       if cn then ReplyErr context_canceled else ReplyResp 500 (Some ([], None));
     ctx_fires := fun i => Nat.eqb i 0;
     elapsed := fun _ => 5 * Millisecond |}.

(** A server whose response body fails when it is read. *)
Definition broken_response : Env :=
  {| transport := fun _ _ _ _ => ReplyResp 200 (Some ([], Some read_error));
     ctx_fires := fun _ => false;
     elapsed := fun _ => 5 * Millisecond |}.

(** A transport that gives the replies of a list in turn and 200 after
    them, as the mock of the tests does, under a context that never fires
    ([cancel_at = None]) or fires during the wait number [i]
    ([cancel_at = Some i]); the replies do not depend on the context. *)
Definition scripted (replies : list Reply) (cancel_at : option nat) : Env :=
  {| transport := fun idx _ _ _ => nth idx replies (ReplyResp 200 (Some ([], None)));
     ctx_fires := fun i => match cancel_at with
                           | Some j => Nat.eqb i j
                           | None => false
                           end;
     elapsed := fun _ => 5 * Millisecond |}.

Definition network_error : error := errorString "connection refused".

(** A response of status 200 whose body is the stream 0. *)
Definition ok_response : Response := {| StatusCode := 200; RespBody := Some O |}.

(** ** What the specification says of a captured body *)

(** The bytes [kept] for the log of a body [data] under the limit [limit]:
    the first [limit] bytes of a longer body, the whole of any other. *)
Definition kept_for_log (limit : Z) (data kept : list byte) : Prop :=
  (Z.of_nat (length data) > limit -> kept = take (Z.to_nat limit) data) /\
  (Z.of_nat (length data) <= limit -> kept = data).

(** The world after [readBody] has read and closed [body] and made a new
    stream over [data]. *)
Definition after_capture (body : nat) (s : Stream) (data : list byte) (w : World) : World :=
  set_heap (heap (after_read body s w) ++ [readable data]) (after_read body s w).

(** Capture of a readable request body: the text of the debug record is
    what the limit keeps, and the request goes on with a new stream over
    all the bytes. *)
Definition request_capture (l : logger.LoggingRoundTripper) (req : Request) (w : World)
  : Prop :=
  forall body s,
    Body req = Some body -> heap w !! body = Some s -> s_err s = None ->
    exists req' w' r text,
      logger.logRequest l req w = (Ret req', w') /\
      trace w' = EvLog LevelDebug "http request body" [("body", AString text)]
                 :: EvClose body :: EvReadAll body :: trace w /\
      kept_for_log (logger.maxBodySize l) (s_data s) (list_byte_of_string text) /\
      Body req' = Some r /\
      heap w !! r = None /\
      heap w' !! r = Some (readable (s_data s)).

(** The same for a readable response body. *)
Definition response_capture (l : logger.LoggingRoundTripper) (req : Request)
    (resp : Response) (duration : Z) (w : World) : Prop :=
  forall body s,
    RespBody resp = Some body -> heap w !! body = Some s -> s_err s = None ->
    exists resp' w' r text,
      logger.logResponse l req resp duration w = (Ret resp', w') /\
      trace w' = EvLog LevelInfo "http request completed"
                   [("method", AString (Method req)); ("url", AString (URL req));
                    ("status", AInt (StatusCode resp)); ("duration", ADuration duration)]
                 :: EvLog LevelDebug "http response body" [("body", AString text)]
                 :: EvClose body :: EvReadAll body :: trace w /\
      kept_for_log (logger.maxBodySize l) (s_data s) (list_byte_of_string text) /\
      StatusCode resp' = StatusCode resp /\
      RespBody resp' = Some r /\
      heap w !! r = None /\
      heap w' !! r = Some (readable (s_data s)).

(** ** Further definitions, for the properties of the code beyond the claims *)

(** The stream that the body of a reply becomes under [http.Client.Do]: an
    empty one when the transport gave none. *)
Definition stream_of (body : option (list byte * option error)) : Stream :=
  match body with
  | Some (data, err) => {| s_data := data; s_err := err; s_closed := false |}
  | None => {| s_data := []; s_err := None; s_closed := false |}
  end.

(** The world after an invocation of the transport that left the heap [h]. *)
Definition after_round_trip (req : Request) (seen : option (list byte))
    (h : list Stream) (w : World) : World :=
  {| heap := h;
     trace := EvRoundTrip (n_calls w) (Body req) seen (cancelled w) :: trace w;
     n_calls := S (n_calls w); n_waits := n_waits w; cancelled := cancelled w |}.

(** A reply after which [Do] tries again while attempts remain. *)
Definition retryable (r : Reply) : bool :=
  match r with
  | ReplyErr _ => true
  | ReplyResp status _ => shouldRetry status
  end.

Definition all_closed (l : list Stream) : Prop :=
  Forall (fun s => s_closed s = true) l.

(** The delays of the waits that follow the attempts [attempt],
    [attempt + 1], ... ([n] of them), oldest first. *)
Definition delays_from (c : client) (attempt : Z) (n : nat) : list Z :=
  map (fun j => retryDelay c (attempt + Z.of_nat j)) (seq 0 n).

(** The heap once [Do] is done with the body of the request: nothing
    changes without a body; a body that was read is empty, and closed when
    the read succeeded. *)
Definition heap_after_body (req : Request) (w : World) : list Stream :=
  match Body req with
  | None => heap w
  | Some sid =>
      match heap w !! sid with
      | None => heap w
      | Some s =>
          match s_err s with
          | Some _ => <[sid := drained s]> (heap w)
          | None => <[sid := closed (drained s)]> (heap w)
          end
      end
  end.

(** The events of [Do] on the body of the request, before the loop. *)
Definition body_events (req : Request) (w : World) : list Event :=
  match Body req with
  | None => []
  | Some sid =>
      match heap w !! sid with
      | None => []
      | Some s =>
          match s_err s with
          | Some _ => [EvReadAll sid]
          | None => [EvClose sid; EvReadAll sid]
          end
      end
  end.

(** What one iteration of the loop of [Do] adds to the heap, [new], and
    what it ends with. *)
Definition attempt_heap (c : client) (attempt : Z) (base : nat) (new : list Stream)
    (st : Step) : Prop :=
  match st with
  | Continue _ _ => all_closed new
  | Return (Some resp, None) =>
      exists pre sr, new = pre ++ [sr] /\ all_closed pre /\ s_closed sr = false /\
                     RespBody resp = Some (base + length pre)%nat
  | Return (None, Some _) => all_closed new
  | Return _ => False
  end.

(** What the loop of [Do] may return after [k] invocations, entered at
    [attempt] with [lastErr], given the streams [new] it added to a heap of
    [base] streams: a response, after at least one invocation, and after all
    of them when its status calls for a retry, whose body is the last stream
    added and the only one still open; or an error, after all the
    invocations the loop could make, with every stream added closed. *)
Definition loop_result (c : client) (lastErr : option error) (attempt : Z) (base : nat)
    (new : list Stream) (k : nat) (r : Result) : Prop :=
  match r with
  | (Some resp, None) =>
      (1 <= k)%nat /\
      (shouldRetry (StatusCode resp) = false \/ k = Z.to_nat (Retries c + 1 - attempt)) /\
      exists pre sr, new = pre ++ [sr] /\ all_closed pre /\ s_closed sr = false /\
                     RespBody resp = Some (base + length pre)%nat
  | (None, Some err) =>
      all_closed new /\
      k = Z.to_nat (Retries c + 1 - attempt) /\
      ((k = O /\ err = match lastErr with
                       | Some e => Errorf_attempts (Retries c) e
                       | None => Errorf_unknown (Retries c)
                       end) \/
       ((1 <= k)%nat /\ exists e, err = Errorf_attempts (Retries c) e))
  | _ => False
  end.

(** The record that [RoundTrip] writes once the transport has answered
    [res]: [logRequestError] for an error, the last record of [logResponse]
    for a response.  (The transport gives one or the other.) *)
Definition completion_record (env : Env) (req : Request) (w : World) (res : Result)
  : Event :=
  match res with
  | (_, Some err) =>
      EvLog LevelError "http request failed"
        [("method", AString (Method req)); ("url", AString (URL req));
         ("duration", ADuration (elapsed env (n_calls w))); ("error", AAny err)]
  | (Some resp, None) =>
      EvLog LevelInfo "http request completed"
        [("method", AString (Method req)); ("url", AString (URL req));
         ("status", AInt (StatusCode resp));
         ("duration", ADuration (elapsed env (n_calls w)))]
  | (None, None) => EvLog LevelInfo EmptyString []
  end.

(** ** examples/main.go *)

(** Helper function to limit string length.  A Go string is its bytes; the
    slice expression panics on a negative bound. *)
Definition limitString (s : list byte) (maxLen : Z) : Outcome (list byte) :=
  if Z.of_nat (length s) <=? maxLen then Ret s
  else if maxLen <? 0 then Panic slice_bounds
  else Ret (take (Z.to_nat maxLen) s).

(** ** More sample inputs *)

(** A server that answers 503, a network error and then 404 with a body. *)
Definition flaky : Env :=
  scripted [ReplyResp 503 (Some ([], None)); ReplyErr network_error;
            ReplyResp 404 (Some (payload, None))] None.

(** A server that answers 503 and then a network error. *)
Definition failing_twice : Env :=
  scripted [ReplyResp 503 (Some ([], None)); ReplyErr network_error] None.

(** A server that sends back the bytes it got. *)
Definition echo : Env :=
  {| transport := fun _ _ seen _ =>
       ReplyResp 200 (Some (match seen with Some data => data | None => [] end, None));
     ctx_fires := fun _ => false;
     elapsed := fun _ => 5 * Millisecond |}.

(** A round tripper that captures bodies, three bytes of them for the log. *)
Definition capturing : logger.LoggingRoundTripper :=
  logger.NewLoggingRoundTripper [logger.WithBodyLogging true; logger.WithMaxBodySize 3].

(** ** Properties *)

(** Running the first action of a sequence whose result [H] gives. *)
Ltac step H := unfold bind at 1; rewrite H.

Create HintDb world.

(** *** Traces and streams *)

Lemma round_trips_app a b : round_trips (a ++ b) = round_trips a ++ round_trips b.
Proof.
  induction a as [|e a IH]; [reflexivity|].
  destruct e; simpl; rewrite ?IH; reflexivity.
Qed.

Lemma reads_of_app sid a b : reads_of sid (a ++ b) = (reads_of sid a + reads_of sid b)%nat.
Proof.
  induction a as [|e a IH]; [reflexivity|].
  destruct e; simpl; rewrite ?IH; try reflexivity.
  destruct (Nat.eqb sid sid0); simpl; lia.
Qed.

Lemma silent_refl w : silent w w.
Proof. repeat split. exists []. repeat split. Qed.

Lemma silent_trans w1 w2 w3 : silent w1 w2 -> silent w2 w3 -> silent w1 w3.
Proof.
  intros (Hc1 & Hh1 & e1 & Ht1 & Hr1 & Hd1) (Hc2 & Hh2 & e2 & Ht2 & Hr2 & Hd2).
  split; [congruence|]. split; [congruence|].
  exists (e2 ++ e1). split; [rewrite Ht2, Ht1; apply app_assoc|].
  split; [rewrite round_trips_app, Hr1, Hr2; reflexivity|].
  intros sid. rewrite reads_of_app, Hd1, Hd2. reflexivity.
Qed.

#[local] Hint Resolve silent_refl silent_trans : world.

(** What the transport takes away leaves the heap its size. *)
Lemma take_body_length b h seen h' :
  take_body b h = Some (seen, h') -> length h' = length h.
Proof.
  destruct b as [sid|]; simpl.
  - destruct (h !! sid) as [s|]; [|discriminate].
    intros [= _ <-]. apply length_insert.
  - now intros [= _ <-].
Qed.

(** The transport gets from a stream just created all that it holds. *)
Lemma take_body_fresh h s :
  take_body (Some (length h)) (h ++ [s])
  = Some (Some (s_data s), h ++ [closed (drained s)]).
Proof.
  simpl. rewrite list_lookup_middle by reflexivity.
  rewrite insert_app_r_alt by lia. now rewrite Nat.sub_diag.
Qed.

Lemma after_read_length sid s w : length (heap (after_read sid s w)) = length (heap w).
Proof. simpl. now rewrite !length_insert. Qed.

(** *** The primitive steps *)

Lemma log_spec lvl msg attrs w :
  exists w', log lvl msg attrs w = (Ret tt, w') /\ silent w w' /\
             trace w' = EvLog lvl msg attrs :: trace w /\ heap w' = heap w.
Proof.
  eexists. split; [reflexivity|]. simpl. repeat split.
  exists [EvLog lvl msg attrs]. repeat split.
Qed.

(** [waitBeforeRetry] always returns, whatever ends the wait; it logs the
    delay and sleeps. *)
Lemma waitBeforeRetry_spec env c attempt w :
  exists w' woke, waitBeforeRetry env c attempt w = (Ret tt, w') /\ silent w w' /\
    heap w' = heap w /\
    trace w' = EvSleep (retryDelay c attempt) woke
               :: EvLog LevelDebug "waiting before retry"
                    [("delay", ADuration (retryDelay c attempt)); ("attempt", AInt attempt)]
               :: trace w.
Proof.
  unfold waitBeforeRetry, bind, log, emit, select_wait. simpl.
  destruct (cancelled w || ctx_fires env (n_waits w)); simpl;
    eexists _, _; (split; [reflexivity|]); simpl; repeat split;
    eexists [_; _]; repeat split.
Qed.

Lemma Close_spec b w :
  is_Some (heap w !! b) ->
  exists w', Close b w = (Ret tt, w') /\ silent w w' /\ trace w' = EvClose b :: trace w.
Proof.
  intros [s Hs]. unfold Close. rewrite Hs. eexists. split; [reflexivity|].
  split; [|reflexivity]. unfold silent; simpl.
  split; [reflexivity|]. split.
  - symmetry. apply length_insert.
  - exists [EvClose b]. repeat split.
Qed.

(** After [restore_body] the request holds a stream from which the transport
    gets the buffered bytes. *)
Lemma restore_body_spec bb req w :
  body_inv bb req ->
  exists req' w0 h,
    restore_body bb req w = (Ret req', w0) /\
    take_body (Body req') (heap w0) = Some (bb, h) /\
    Body req' = match bb with Some _ => Some (length (heap w)) | None => None end /\
    Method req' = Method req /\ URL req' = URL req /\
    body_inv bb req' /\
    n_calls w0 = n_calls w /\ n_waits w0 = n_waits w /\ cancelled w0 = cancelled w /\
    trace w0 = trace w /\
    length (heap w0) = (length (heap w) + match bb with Some _ => 1 | None => 0 end)%nat.
Proof.
  intros Hinv. destruct bb as [data|]; simpl.
  - unfold bind, NewReader. simpl.
    eexists _, _, _. split; [reflexivity|]. simpl.
    rewrite list_lookup_middle by reflexivity. simpl.
    repeat split; try reflexivity; try (intros [=]).
    all: try (rewrite length_app; reflexivity).
  - eexists req, w, (heap w). rewrite (Hinv eq_refl). simpl.
    repeat split; auto.
Qed.

Lemma restore_body_calls bb req w req' w0 :
  restore_body bb req w = (Ret req', w0) -> n_calls w0 = n_calls w.
Proof.
  destruct bb; simpl; unfold bind, NewReader, ret; simpl; intros [= _ <-]; reflexivity.
Qed.

(** [http.Client.Do] on a request whose body is a stream of the heap: one
    invocation is recorded, and a response comes with a body that is a
    stream of the heap. *)
Lemma HttpClient_Do_spec env req w seen h :
  take_body (Body req) (heap w) = Some (seen, h) ->
  exists r w',
    HttpClient_Do env req w = (Ret r, w') /\
    n_calls w' = S (n_calls w) /\
    n_waits w' = n_waits w /\
    cancelled w' = cancelled w /\
    trace w' = EvRoundTrip (n_calls w) (Body req) seen (cancelled w) :: trace w /\
    (length (heap w) <= length (heap w'))%nat /\
    match transport env (n_calls w) req seen (cancelled w) with
    | ReplyErr e => r = (None, Some e)
    | ReplyResp st _ =>
        exists b, r = (Some {| StatusCode := st; RespBody := Some b |}, None) /\
                  is_Some (heap w' !! b)
    end.
Proof.
  intros Hb. pose proof (take_body_length _ _ _ _ Hb) as Hl.
  unfold HttpClient_Do, bind, Transport_RoundTrip. rewrite Hb.
  destruct (transport env (n_calls w) req seen (cancelled w)) as [e|st [[d e]|]]; simpl.
  - eexists _, _. repeat split; simpl; try reflexivity. lia.
  - eexists _, _. repeat split; simpl; try reflexivity.
    + rewrite length_app. simpl. lia.
    + eexists. split; [reflexivity|]. simpl.
      rewrite list_lookup_middle by reflexivity. eauto.
  - eexists _, _. repeat split; simpl; try reflexivity.
    + rewrite length_app. simpl. lia.
    + eexists. split; [reflexivity|]. simpl.
      rewrite list_lookup_middle by reflexivity. eauto.
Qed.

Lemma HttpClient_Do_reply env req w r w' :
  HttpClient_Do env req w = (Ret r, w') ->
  exists seen,
    match transport env (n_calls w) req seen (cancelled w) with
    | ReplyErr e => r = (None, Some e)
    | ReplyResp st _ => exists b, r = (Some {| StatusCode := st; RespBody := Some b |}, None)
    end.
Proof.
  intros H. unfold HttpClient_Do, bind, Transport_RoundTrip in H.
  destruct (take_body (Body req) (heap w)) as [[seen h]|]; [|discriminate].
  exists seen.
  destruct (transport env (n_calls w) req seen (cancelled w)) as [e|st [[d e]|]];
    simpl in H; unfold ret in H; injection H as <- _; eauto.
Qed.

Lemma HttpClient_Do_calls env req w r w' :
  HttpClient_Do env req w = (Ret r, w') -> n_calls w' = S (n_calls w).
Proof.
  intros H. unfold HttpClient_Do, bind, Transport_RoundTrip in H.
  destruct (take_body (Body req) (heap w)) as [[seen h]|]; [|discriminate].
  destruct (transport env (n_calls w) req seen (cancelled w)) as [e|st [[d e]|]];
    simpl in H; unfold ret in H; injection H as _ <-; reflexivity.
Qed.

Lemma Transport_RoundTrip_fresh env req w h s :
  heap w = h ++ [s] -> Body req = Some (length h) ->
  exists res w',
    Transport_RoundTrip env req w = (Ret res, w') /\
    trace w' = EvRoundTrip (n_calls w) (Some (length h)) (Some (s_data s)) (cancelled w)
               :: trace w /\
    n_calls w' = S (n_calls w) /\
    exactly_one res.
Proof.
  intros Hh Hb. unfold Transport_RoundTrip. rewrite Hb, Hh, take_body_fresh.
  destruct (transport env (n_calls w) req (Some (s_data s)) (cancelled w)) as [e|st [[d e]|]];
    eexists _, _; (split; [reflexivity|]); simpl; split_and!; auto.
Qed.

(** *** One iteration of the loop of [Do] *)

(** An iteration returns a result with exactly one nil half, and continues
    only when attempts remain. *)
Lemma step_of_facts c lastErr attempt req r st :
  step_of c lastErr attempt req r = Some st ->
  match st with
  | Return res => exactly_one res
  | Continue req' _ => attempt < Retries c /\ req' = req
  end.
Proof.
  destruct r as [[resp|] [err|]]; simpl; try discriminate.
  - intros [= <-]. destruct (attempt >=? Retries c) eqn:H; simpl; [exact I|].
    split; [lia|reflexivity].
  - intros [= <-].
    destruct (shouldRetry (StatusCode resp) && (attempt <? Retries c)) eqn:H; simpl; [|exact I].
    apply andb_true_iff in H as [_ H]. split; [lia|reflexivity].
  - intros [= <-]. destruct (attempt >=? Retries c) eqn:H; simpl; [exact I|].
    split; [lia|reflexivity].
Qed.

(** Every iteration restores the body, invokes the transport once, and ends
    as [step_of] says, after events that are neither invocations nor reads;
    a response that is returned is returned in the world the invocation
    left. *)
Lemma Do_attempt_spec env c req bb lastErr attempt w :
  body_inv bb req ->
  exists req' w0 r w1 st w',
    restore_body bb req w = (Ret req', w0) /\
    Body req' = match bb with Some _ => Some (length (heap w)) | None => None end /\
    body_inv bb req' /\
    n_calls w0 = n_calls w /\ trace w0 = trace w /\ cancelled w0 = cancelled w /\
    HttpClient_Do env req' w0 = (Ret r, w1) /\
    exactly_one r /\
    n_calls w1 = S (n_calls w) /\
    trace w1 = EvRoundTrip (n_calls w) (Body req') bb (cancelled w) :: trace w /\
    (length (heap w) + match bb with Some _ => 1 | None => 0 end <= length (heap w1))%nat /\
    Do_attempt env c req bb lastErr attempt w = (Ret st, w') /\
    step_of c lastErr attempt req' r = Some st /\
    silent w1 w' /\
    (forall res, st = Return res -> fst res <> None -> w' = w1).
Proof.
  intros Hinv.
  destruct (restore_body_spec bb req w Hinv)
    as (req' & w0 & h & Hres & Htb & Hbody & Hm & Hu & Hinv' & Hc0 & Hw0 & Hcn0 & Ht0 & Hl0).
  destruct (HttpClient_Do_spec env req' w0 bb h Htb)
    as (r & w1 & Hdo & Hc1 & Hw1 & Hcn1 & Ht1 & Hl1 & Hrep).
  exists req', w0, r, w1.
  assert (Hpre : forall k : Request -> M Step,
      (let* req := restore_body bb req in k req) w = k req' w0).
  { intros k. step Hres. reflexivity. }
  unfold Do_attempt. rewrite Hpre. step Hdo.
  assert (Hcommon : n_calls w1 = S (n_calls w) /\
            trace w1 = EvRoundTrip (n_calls w) (Body req') bb (cancelled w) :: trace w /\
            (length (heap w) + match bb with Some _ => 1 | None => 0 end
               <= length (heap w1))%nat).
  { rewrite Hc1, Ht1, Hc0, Ht0, Hcn0. repeat split. lia. }
  destruct Hcommon as (Hca & Hcb & Hcc).
  destruct (transport env (n_calls w0) req' bb (cancelled w0)) as [e|st0 body].
  - subst r. 
    destruct (log_spec LevelWarn "request attempt failed"
       [("attempt", AInt attempt); ("max_retries", AInt (Retries c));
        ("method", AString (Method req')); ("url", AString (URL req'));
        ("error", AAny e)] w1) as (w2 & Hlog & Hs2 & _).
    step Hlog. simpl step_of.
    destruct (attempt >=? Retries c) eqn:Hge.
    + eexists _, w2. split_and!; eauto; try exact I. intros res [= <-]. simpl. congruence.
    + destruct (waitBeforeRetry_spec env c attempt w2) as (w3 & woke & Hwait & Hs3 & _).
      step Hwait.
      eexists _, w3. split_and!; eauto with world; try exact I. intros res [=].
  - destruct Hrep as (b & -> & Hb). simpl step_of. cbv iota beta.
    destruct (shouldRetry st0 && (attempt <? Retries c)) eqn:Hsr; simpl.
    + rewrite Hsr.
      destruct (Close_spec b w1 Hb) as (w2 & Hcl & Hs2 & _).
      step Hcl.
      destruct (log_spec LevelWarn "retrying due to status code"
        [("status", AInt st0); ("attempt", AInt attempt);
         ("max_retries", AInt (Retries c)); ("url", AString (URL req'))] w2)
        as (w3 & Hlog & Hs3 & _).
      step Hlog.
      destruct (waitBeforeRetry_spec env c attempt w3) as (w4 & woke & Hwait & Hs4 & _).
      step Hwait.
      eexists _, w4. split_and!; eauto with world; try exact I. intros res [=].
    + rewrite Hsr. eexists _, w1. split_and!; eauto with world; try exact I.
Qed.

(** *** The loop of [Do] *)

Lemma replayed_weaken bs lo hi lo' hi' i :
  (lo' <= lo)%nat -> (hi <= hi')%nat -> replayed bs lo hi i -> replayed bs lo' hi' i.
Proof.
  intros H1 H2 (Hs & b & Hb & Hr). split; [assumption|].
  exists b. split; [assumption|lia].
Qed.

Section Loop.

Context (env : Env) (c : client).

(** Past the last attempt the loop is left. *)
Lemma Do_loop_exit fuel req bb lastErr attempt w :
  Retries c < attempt ->
  Do_loop env c fuel req bb lastErr attempt w = Do_fallthrough c lastErr w.
Proof.
  intros H. destruct fuel; simpl;
    (destruct (attempt <=? Retries c) eqn:E; [lia|reflexivity]).
Qed.

(** With fuel, the loop is its body and then the loop at the next attempt. *)
Lemma Do_loop_step fuel req bb lastErr attempt w st w' :
  attempt <= Retries c ->
  Do_attempt env c req bb lastErr attempt w = (Ret st, w') ->
  Do_loop env c (S fuel) req bb lastErr attempt w
  = match st with
    | Return r => (Ret r, w')
    | Continue req' lastErr' => Do_loop env c fuel req' bb lastErr' (attempt + 1) w'
    end.
Proof.
  intros Hle Hst. simpl. destruct (attempt <=? Retries c) eqn:E; [|lia].
  unfold bind. rewrite Hst. destruct st; reflexivity.
Qed.

(** A response on which the loop does not retry is what it returns. *)
Lemma Do_loop_return fuel req bb lastErr attempt w req' w0 resp w1 :
  attempt <= Retries c ->
  restore_body bb req w = (Ret req', w0) ->
  HttpClient_Do env req' w0 = (Ret (Some resp, None), w1) ->
  shouldRetry (StatusCode resp) && (attempt <? Retries c) = false ->
  Do_loop env c (S fuel) req bb lastErr attempt w = (Ret (Some resp, None), w1).
Proof.
  intros Hle Hres Hdo Hno.
  apply (Do_loop_step fuel req bb lastErr attempt w (Return (Some resp, None)) w1 Hle).
  unfold Do_attempt, bind. rewrite Hres, Hdo, Hno. reflexivity.
Qed.

(** With as much fuel as attempts remain the loop returns, and its result
    has exactly one nil half. *)
Lemma Do_loop_total bb fuel : forall attempt req lastErr w,
  body_inv bb req ->
  (Z.to_nat (Retries c + 1 - attempt) <= fuel)%nat ->
  exists r w', Do_loop env c fuel req bb lastErr attempt w = (Ret r, w') /\ exactly_one r.
Proof.
  induction fuel as [|fuel IH]; intros attempt req lastErr w Hinv Hfuel.
  - rewrite Do_loop_exit by lia.
    destruct lastErr; eexists _, _; (split; [reflexivity|exact I]).
  - destruct (Z_lt_le_dec (Retries c) attempt) as [Hgt|Hle].
    + rewrite Do_loop_exit by lia.
      destruct lastErr; eexists _, _; (split; [reflexivity|exact I]).
    + destruct (Do_attempt_spec env c req bb lastErr attempt w Hinv)
        as (req' & w0 & r & w1 & st & w' & _ & _ & Hinv' & _ & _ & _ & _ & Hone & _ & _ & _
            & Hatt & Hstep & _ & _).
      rewrite (Do_loop_step _ _ _ _ _ _ _ _ Hle Hatt).
      pose proof (step_of_facts _ _ _ _ _ _ Hstep) as Hf.
      destruct st as [res|req'' lastErr'].
      * eauto.
      * destruct Hf as [Hlt ->]. apply IH; [assumption|lia].
Qed.

(** The invariant of the loop over a buffered body: no read, and every
    invocation gets the buffered bytes from a stream of its own made during
    the loop. *)
Lemma Do_loop_replay bs fuel : forall attempt req lastErr w,
  exists r w' evs,
    Do_loop env c fuel req (Some bs) lastErr attempt w = (r, w') /\
    trace w' = evs ++ trace w /\
    (forall sid, reads_of sid evs = O) /\
    (length (heap w) <= length (heap w'))%nat /\
    n_calls w' = (n_calls w + length (round_trips evs))%nat /\
    Forall (replayed bs (length (heap w)) (length (heap w'))) (round_trips evs) /\
    NoDup (map inv_body (round_trips evs)).
Proof.
  assert (Hstop : forall (r : Outcome Result) (w : World),
    exists r' w' evs, (r, w) = (r', w') /\ trace w' = evs ++ trace w /\
      (forall sid, reads_of sid evs = O) /\
      (length (heap w) <= length (heap w'))%nat /\
      n_calls w' = (n_calls w + length (round_trips evs))%nat /\
      Forall (replayed bs (length (heap w)) (length (heap w'))) (round_trips evs) /\
      NoDup (map inv_body (round_trips evs))).
  { intros r w. exists r, w, []. simpl. split_and!; auto using NoDup_nil_2. }
  induction fuel as [|fuel IH]; intros attempt req lastErr w.
  - simpl. destruct (attempt <=? Retries c); [apply Hstop|].
    destruct lastErr; apply Hstop.
  - destruct (Z_lt_le_dec (Retries c) attempt) as [Hgt|Hle].
    { rewrite Do_loop_exit by lia. destruct lastErr; apply Hstop. }
    assert (Hinv : body_inv (Some bs) req) by (intros [=]).
    destruct (Do_attempt_spec env c req (Some bs) lastErr attempt w Hinv)
      as (req' & w0 & r & w1 & st & w' & _ & Hbody & _ & _ & _ & _ & _ & _ & Hc1 & Ht1 & Hl1
          & Hatt & _ & (Hsc & Hsl & e1 & Hst & Hsr & Hsd) & _).
    rewrite (Do_loop_step _ _ _ _ _ _ _ _ Hle Hatt).
    set (rt := {| inv_idx := n_calls w; inv_body := Some (length (heap w));
                  inv_seen := Some bs; inv_cancelled := cancelled w |}).
    assert (Hrt1 : round_trips (e1 ++ [EvRoundTrip (n_calls w) (Body req') (Some bs) (cancelled w)])
                   = [rt]).
    { rewrite round_trips_app, Hsr, Hbody. reflexivity. }
    assert (Hrd1 : forall sid,
      reads_of sid (e1 ++ [EvRoundTrip (n_calls w) (Body req') (Some bs) (cancelled w)]) = O).
    { intros sid. rewrite reads_of_app, Hsd. reflexivity. }
    assert (Htr1 : trace w' =
      (e1 ++ [EvRoundTrip (n_calls w) (Body req') (Some bs) (cancelled w)]) ++ trace w).
    { rewrite Hst, Ht1, <- app_assoc. reflexivity. }
    assert (Hrep : replayed bs (length (heap w)) (length (heap w')) rt).
    { split; [reflexivity|]. exists (length (heap w)). split; [reflexivity|]. lia. }
    destruct st as [res|req'' lastErr'].
    + exists (Ret res), w', (e1 ++ [EvRoundTrip (n_calls w) (Body req') (Some bs) (cancelled w)]).
      rewrite Hrt1. simpl. split_and!; auto; try lia.
      apply NoDup_singleton.
    + destruct (IH (attempt + 1) req'' lastErr' w')
        as (r2 & w2 & e2 & Hloop & Ht2 & Hd2 & Hl2 & Hc2 & Hf2 & Hn2).
      exists r2, w2, (e2 ++ e1 ++ [EvRoundTrip (n_calls w) (Body req') (Some bs) (cancelled w)]).
      rewrite (round_trips_app e2), Hrt1.
      split_and!.
      * assumption.
      * rewrite Ht2, Htr1, <- !app_assoc. reflexivity.
      * intros sid. rewrite reads_of_app, Hd2, Hrd1. reflexivity.
      * lia.
      * rewrite length_app. simpl. lia.
      * apply Forall_app. split.
        -- eapply Forall_impl; [exact Hf2|]. intros i. apply replayed_weaken; lia.
        -- constructor; [|constructor]. eapply replayed_weaken; [| |exact Hrep]; lia.
      * rewrite map_app. apply NoDup_app. split_and!.
        -- assumption.
        -- intros x Hx Hx1. simpl in Hx1. apply list_elem_of_singleton in Hx1. subst x.
           apply list_elem_of_fmap in Hx as (i & Hi & Hin).
           rewrite Forall_forall in Hf2. destruct (Hf2 i Hin) as (_ & b & Hb & Hr).
           rewrite Hb in Hi. injection Hi as Hi. lia.
        -- simpl. apply NoDup_singleton.
Qed.

(** Entered with fuel and an attempt to make, the loop invokes the
    transport. *)
Lemma Do_loop_invokes bs fuel attempt req lastErr w :
  attempt <= Retries c ->
  exists r w',
    Do_loop env c (S fuel) req (Some bs) lastErr attempt w = (r, w') /\
    (n_calls w < n_calls w')%nat.
Proof.
  intros Hle.
  assert (Hinv : body_inv (Some bs) req) by (intros [=]).
  destruct (Do_attempt_spec env c req (Some bs) lastErr attempt w Hinv)
    as (req' & w0 & r & w1 & st & w' & _ & _ & _ & _ & _ & _ & _ & _ & Hc1 & _ & _
        & Hatt & _ & (Hsc & _) & _).
  rewrite (Do_loop_step _ _ _ _ _ _ _ _ Hle Hatt).
  destruct st as [res|req'' lastErr'].
  - exists (Ret res), w'. split; [reflexivity|lia].
  - destruct (Do_loop_replay bs fuel (attempt + 1) req'' lastErr' w')
      as (r2 & w2 & evs & Hloop & _ & _ & _ & Hc2 & _).
    exists r2, w2. split; [assumption|lia].
Qed.

(** Under a transport that always answers 500, the loop entered [k] attempts
    before the last makes [k + 1] invocations and returns what the last of
    them returned. *)
Lemma Do_loop_500 bb : always_500 env -> forall k fuel attempt req lastErr w,
  body_inv bb req ->
  Retries c = attempt + Z.of_nat k ->
  (k < fuel)%nat ->
  exists resp w' req' w1,
    Do_loop env c fuel req bb lastErr attempt w = (Ret (Some resp, None), w') /\
    StatusCode resp = 500 /\
    HttpClient_Do env req' w1 = (Ret (Some resp, None), w') /\
    n_calls w1 = (n_calls w + k)%nat /\
    n_calls w' = (n_calls w + k + 1)%nat.
Proof.
  intros H500. induction k as [|k IH]; intros fuel attempt req lastErr w Hinv Hk Hfuel;
    (destruct fuel as [|fuel]; [lia|]);
    assert (Hle : attempt <= Retries c) by lia;
    destruct (Do_attempt_spec env c req bb lastErr attempt w Hinv)
      as (req' & w0 & r & w1 & st & w' & _ & _ & Hinv' & Hc0 & _ & _ & Hdo & _ & Hc1 & _ & _
          & Hatt & Hstep & (Hsc & _) & Hsame);
    rewrite (Do_loop_step _ _ _ _ _ _ _ _ Hle Hatt);
    destruct (HttpClient_Do_reply _ _ _ _ _ Hdo) as (seen & Hrep);
    destruct (H500 (n_calls w0) req' seen (cancelled w0)) as (body & Hreply);
    rewrite Hreply in Hrep; destruct Hrep as (b & ->);
    unfold step_of in Hstep; cbv beta iota in Hstep;
    change (StatusCode {| StatusCode := 500; RespBody := Some b |}) with 500 in Hstep;
    change (shouldRetry 500) with true in Hstep; rewrite andb_true_l in Hstep.
  - replace (attempt <? Retries c) with false in Hstep by (symmetry; apply Z.ltb_ge; lia).
    injection Hstep as <-.
    rewrite (Hsame _ eq_refl) by discriminate.
    eexists _, w1, req', w0. split_and!; eauto; lia.
  - replace (attempt <? Retries c) with true in Hstep by (symmetry; apply Z.ltb_lt; lia).
    injection Hstep as <-.
    destruct (IH fuel (attempt + 1) req' lastErr w' Hinv' ltac:(lia) ltac:(lia))
      as (resp & w2 & req2 & w3 & Hloop & Hst & Hdo2 & Hc3 & Hc2).
    exists resp, w2, req2, w3. split_and!; auto; lia.
Qed.

End Loop.

(** *** [Do] *)

(** [Do] on a readable body is the loop over the buffered bytes. *)
Lemma Do_readable env c req w sid s :
  Body req = Some sid -> heap w !! sid = Some s -> s_err s = None ->
  Do env c req w
  = Do_loop env c (Z.to_nat (Retries c)) req (Some (s_data s)) None 1 (after_read sid s w).
Proof.
  intros Hb Hs He. unfold Do, bind, ReadAll, Close. rewrite Hb, Hs, He. simpl.
  rewrite list_lookup_insert_eq by (eapply lookup_lt_Some; eassumption).
  reflexivity.
Qed.

(** [Do] on a body whose read fails. *)
Lemma Do_unreadable env c req w sid s e :
  Body req = Some sid -> heap w !! sid = Some s -> s_err s = Some e ->
  Do env c req w
  = (Ret (None, Some (Errorf_read_body e)),
     {| heap := <[sid := drained s]> (heap w); trace := EvReadAll sid :: trace w;
        n_calls := n_calls w; n_waits := n_waits w; cancelled := cancelled w |}).
Proof.
  intros Hb Hs He. unfold Do, bind, ReadAll. rewrite Hb, Hs, He. reflexivity.
Qed.

Lemma Do_no_body env c req w :
  Body req = None ->
  Do env c req w = Do_loop env c (Z.to_nat (Retries c)) req None None 1 w.
Proof. intros Hb. unfold Do. rewrite Hb. reflexivity. Qed.

(** [Do] always returns, and never with both a response and an error, nor
    with neither. *)
Lemma Do_total env c req w :
  body_valid req w ->
  exists r w', Do env c req w = (Ret r, w') /\ exactly_one r.
Proof.
  intros Hv. destruct (Body req) as [sid|] eqn:Hb.
  - destruct (Hv sid Hb) as [s Hs]. destruct (s_err s) as [e|] eqn:He.
    + rewrite (Do_unreadable env c req w sid s e Hb Hs He).
      eexists _, _. split; [reflexivity|exact I].
    + rewrite (Do_readable env c req w sid s Hb Hs He).
      apply Do_loop_total; [intros [=]|lia].
  - rewrite (Do_no_body env c req w Hb).
    apply Do_loop_total; [intros _; assumption|lia].
Qed.

(** *** The backoff delay *)

Lemma wrap_in_range z : Int64.in_range z -> Int64.wrap z = z.
Proof.
  unfold Int64.in_range, Int64.min_int, Int64.max_int, Int64.wrap. intros H.
  rewrite Z.mod_small; lia.
Qed.

(** As long as nothing leaves the 64-bit range, the delay is the
    exponential one, capped. *)
Lemma retryDelay_in_range c k :
  1 <= k <= 63 ->
  Int64.in_range (RetryDelay c * 2 ^ (k - 1)) ->
  retryDelay c k = Z.min (RetryDelay c * 2 ^ (k - 1)) (MaxRetryWait c).
Proof.
  intros Hk Hr. unfold retryDelay, Int64.mul, Int64.sub, Int64.shl, Int64.to_uint.
  assert (Hp : 0 < 2 ^ (k - 1) <= 2 ^ 62).
  { split; [apply Z.pow_pos_nonneg; lia|apply Z.pow_le_mono_r; lia]. }
  rewrite (wrap_in_range (k - 1))
    by (unfold Int64.in_range, Int64.min_int, Int64.max_int; lia).
  rewrite (Z.mod_small (k - 1)) by lia.
  replace (64 <=? k - 1) with false by (symmetry; apply Z.leb_gt; lia).
  rewrite Z.shiftl_1_l.
  rewrite (wrap_in_range (2 ^ (k - 1)))
    by (unfold Int64.in_range, Int64.min_int, Int64.max_int; lia).
  rewrite (wrap_in_range _ Hr).
  destruct (RetryDelay c * 2 ^ (k - 1) >? MaxRetryWait c) eqn:E; lia.
Qed.

(** *** [readBody] *)

(** A failed read gives no bytes, an empty stream and the error. *)
Lemma readBody_fail body limit w s e :
  heap w !! body = Some s -> s_err s = Some e ->
  logger.readBody body limit w
  = (Ret (None, length (heap w), Some e), after_capture body s [] w).
Proof.
  intros Hs He. unfold logger.readBody, bind, ReadAll, Close. rewrite Hs. simpl.
  rewrite list_lookup_insert_eq by (eapply lookup_lt_Some; eassumption).
  rewrite He. unfold NewReader, ret. simpl. rewrite !length_insert. reflexivity.
Qed.

(** Under a limit that is not negative, a read without error gives the
    bytes kept for the log and a new stream over all of them. *)
Lemma readBody_ok body limit w s :
  heap w !! body = Some s -> s_err s = None -> 0 <= limit ->
  logger.readBody body limit w
  = (Ret (Some (if Z.of_nat (length (s_data s)) >? limit
                then take (Z.to_nat limit) (s_data s) else s_data s),
          length (heap w), None),
     after_capture body s (s_data s) w).
Proof.
  intros Hs He Hl. unfold logger.readBody, bind, ReadAll, Close. rewrite Hs. simpl.
  rewrite list_lookup_insert_eq by (eapply lookup_lt_Some; eassumption).
  rewrite He.
  destruct (Z.of_nat (length (s_data s)) >? limit) eqn:Hgt.
  - unfold slice_to.
    replace ((limit <? 0) || (Z.of_nat (length (s_data s)) <? limit)) with false
      by (symmetry; apply orb_false_iff; split; [apply Z.ltb_ge|apply Z.ltb_ge]; lia).
    unfold NewReader, ret. simpl. rewrite !length_insert. reflexivity.
  - unfold NewReader, ret. simpl. rewrite !length_insert. reflexivity.
Qed.

(** Under a negative limit the slice expression panics. *)
Lemma readBody_negative_limit body limit w s :
  heap w !! body = Some s -> s_err s = None -> limit < 0 ->
  logger.readBody body limit w = (Panic slice_bounds, after_read body s w).
Proof.
  intros Hs He Hl. unfold logger.readBody, bind, ReadAll, Close. rewrite Hs. simpl.
  rewrite list_lookup_insert_eq by (eapply lookup_lt_Some; eassumption).
  rewrite He.
  replace (Z.of_nat (length (s_data s)) >? limit) with true by (symmetry; apply Z.gtb_lt; lia).
  unfold slice_to. replace (limit <? 0) with true by (symmetry; apply Z.ltb_lt; lia).
  reflexivity.
Qed.

Lemma kept_for_log_intro limit data :
  kept_for_log limit data
    (if Z.of_nat (length data) >? limit then take (Z.to_nat limit) data else data).
Proof.
  unfold kept_for_log. destruct (Z.of_nat (length data) >? limit) eqn:H; split; intros; 
    try reflexivity; lia.
Qed.

Lemma after_capture_fresh body s data w :
  heap w !! length (heap w) = None /\
  heap (after_capture body s data w) !! length (heap w) = Some (readable data).
Proof.
  split; [apply lookup_ge_None; lia|].
  unfold after_capture, set_heap. cbn [heap].
  apply list_lookup_middle. symmetry. apply after_read_length.
Qed.

Lemma logRequest_fail l req w body s e :
  logger.logBodies l = true ->
  Body req = Some body -> heap w !! body = Some s -> s_err s = Some e ->
  logger.logRequest l req w
  = (Ret {| Method := Method req; URL := URL req; Body := Some (length (heap w)) |},
     {| heap := heap (after_capture body s [] w);
        trace := EvLog LevelWarn "failed to read request body" [("error", AAny e)]
                 :: EvClose body :: EvReadAll body :: trace w;
        n_calls := n_calls w; n_waits := n_waits w; cancelled := cancelled w |}).
Proof.
  intros Hlog Hb Hs He. unfold logger.logRequest. rewrite Hlog, Hb. cbn [negb].
  unfold bind at 1. rewrite (readBody_fail body _ w s e Hs He). reflexivity.
Qed.

(** *** One iteration, in full *)

(** [http.Client.Do], as an equation: the world after it and its result,
    read off the reply of the transport. *)
Lemma HttpClient_Do_run env req w seen h :
  take_body (Body req) (heap w) = Some (seen, h) ->
  HttpClient_Do env req w =
  match transport env (n_calls w) req seen (cancelled w) with
  | ReplyErr e => (Ret (None, Some e), after_round_trip req seen h w)
  | ReplyResp status body =>
      (Ret (Some {| StatusCode := status; RespBody := Some (length h) |}, None),
       after_round_trip req seen (h ++ [stream_of body]) w)
  end.
Proof.
  intros Hb. unfold HttpClient_Do, bind, Transport_RoundTrip. rewrite Hb.
  destruct (transport env (n_calls w) req seen (cancelled w)) as [e|st [[d e]|]];
    reflexivity.
Qed.

(** The same for [next.RoundTrip], where a reply without body gives a
    response without body. *)
Lemma Transport_RoundTrip_run env req w seen h :
  take_body (Body req) (heap w) = Some (seen, h) ->
  Transport_RoundTrip env req w =
  match transport env (n_calls w) req seen (cancelled w) with
  | ReplyErr e => (Ret (None, Some e), after_round_trip req seen h w)
  | ReplyResp status None =>
      (Ret (Some {| StatusCode := status; RespBody := None |}, None),
       after_round_trip req seen h w)
  | ReplyResp status (Some (data, err)) =>
      (Ret (Some {| StatusCode := status; RespBody := Some (length h) |}, None),
       after_round_trip req seen
         (h ++ [{| s_data := data; s_err := err; s_closed := false |}]) w)
  end.
Proof.
  intros Hb. unfold Transport_RoundTrip. rewrite Hb.
  destruct (transport env (n_calls w) req seen (cancelled w)) as [e|st [[d e]|]];
    reflexivity.
Qed.

Lemma take_body_valid req w :
  body_valid req w -> exists seen h, take_body (Body req) (heap w) = Some (seen, h).
Proof.
  intros Hv. unfold take_body. destruct (Body req) as [sid|] eqn:Hb; [|eauto].
  destruct (Hv sid Hb) as [s Hs]. rewrite Hs. eauto.
Qed.

(** After [restore_body] the transport will take the buffered bytes and
    leave behind only closed streams. *)
Lemma restore_body_run bb req w :
  body_inv bb req ->
  exists req' w0 new0,
    restore_body bb req w = (Ret req', w0) /\
    take_body (Body req') (heap w0) = Some (bb, heap w ++ new0) /\
    all_closed new0 /\
    body_inv bb req' /\
    n_calls w0 = n_calls w /\ n_waits w0 = n_waits w /\ cancelled w0 = cancelled w /\
    trace w0 = trace w.
Proof.
  intros Hinv. destruct bb as [data|].
  - eexists _, _, [_]. split; [reflexivity|]. cbn [Body heap set_heap].
    rewrite take_body_fresh. split_and!; try reflexivity.
    + repeat constructor.
    + intros [=].
  - exists req, w, []. simpl. rewrite (Hinv eq_refl), app_nil_r.
    split_and!; auto. constructor.
Qed.

Lemma Close_last b h s w :
  heap w = h ++ [s] -> b = length h ->
  Close b w
  = (Ret tt, {| heap := h ++ [closed s]; trace := EvClose b :: trace w;
                n_calls := n_calls w; n_waits := n_waits w; cancelled := cancelled w |}).
Proof.
  intros Hh ->. unfold Close. rewrite Hh, list_lookup_middle by reflexivity.
  rewrite insert_app_r_alt by lia. now rewrite Nat.sub_diag.
Qed.

Lemma waitBeforeRetry_run env c attempt w :
  exists woke,
    waitBeforeRetry env c attempt w
    = (Ret tt,
       {| heap := heap w;
          trace := EvSleep (retryDelay c attempt) woke
                   :: EvLog LevelDebug "waiting before retry"
                        [("delay", ADuration (retryDelay c attempt));
                         ("attempt", AInt attempt)]
                   :: trace w;
          n_calls := n_calls w; n_waits := S (n_waits w);
          cancelled := match woke with CtxDone => true | TimerFired => cancelled w end |}).
Proof.
  unfold waitBeforeRetry, bind, log, emit, select_wait. simpl.
  destruct (cancelled w || ctx_fires env (n_waits w));
    [exists CtxDone|exists TimerFired]; reflexivity.
Qed.

Lemma all_closed_snoc l s : all_closed l -> s_closed s = true -> all_closed (l ++ [s]).
Proof. intros Hl Hs. apply Forall_app. split; [assumption|]. repeat constructor. assumption. Qed.

Lemma sleeps_app a b : sleeps (a ++ b) = sleeps a ++ sleeps b.
Proof.
  induction a as [|e a IH]; [reflexivity|].
  destruct e; simpl; rewrite ?IH; reflexivity.
Qed.

Lemma delays_from_S c attempt n :
  delays_from c attempt (S n) = retryDelay c attempt :: delays_from c (attempt + 1) n.
Proof.
  unfold delays_from. simpl. rewrite Z.add_0_r. f_equal.
  rewrite <- seq_shift, map_map. apply map_ext. intros j. f_equal. lia.
Qed.

(** Everything one iteration does: one invocation, one wait exactly when it
    continues, with the delay of its attempt, and streams that are closed
    except the body of a response that is returned. *)
Lemma Do_attempt_effects env c req bb lastErr attempt w :
  body_inv bb req ->
  exists st w' new evs,
    Do_attempt env c req bb lastErr attempt w = (Ret st, w') /\
    heap w' = heap w ++ new /\
    trace w' = evs ++ trace w /\
    n_calls w' = S (n_calls w) /\
    (exists i, round_trips evs = [i] /\ inv_seen i = bb /\
               (bb = None -> inv_body i = None)) /\
    (forall sid, reads_of sid evs = O) /\
    attempt_heap c attempt (length (heap w)) new st /\
    match st with
    | Continue req' _ =>
        attempt < Retries c /\ body_inv bb req' /\
        n_waits w' = S (n_waits w) /\
        map fst (sleeps evs) = [retryDelay c attempt]
    | Return r =>
        n_waits w' = n_waits w /\ sleeps evs = [] /\
        match r with
        | (Some resp, None) => shouldRetry (StatusCode resp) = false \/ Retries c <= attempt
        | (None, Some err) => Retries c <= attempt /\
                              exists e, err = Errorf_attempts (Retries c) e
        | _ => False
        end
    end.
Proof.
  intros Hinv.
  destruct (restore_body_run bb req w Hinv)
    as (req' & w0 & new0 & Hres & Htb & Hcl0 & Hinv' & Hc0 & Hw0 & Hcn0 & Ht0).
  pose proof (HttpClient_Do_run env req' w0 bb _ Htb) as Hdo.
  unfold Do_attempt. step Hres. step Hdo.
  destruct (transport env (n_calls w0) req' bb (cancelled w0)) as [e|status body].
  - (* a transport error *)
    unfold bind at 1, log, emit. cbn [after_round_trip heap trace n_calls n_waits cancelled].
    destruct (attempt >=? Retries c) eqn:Hge.
    + eexists _, _, new0, [_; _]. split; [reflexivity|].
      cbn [heap trace n_calls n_waits]. rewrite Ht0, Hc0, Hw0.
      split_and!; try reflexivity; eauto;
        try (eexists; split_and!; [reflexivity|reflexivity|exact Hinv']). lia.
    + destruct (waitBeforeRetry_run env c attempt
                  {| heap := heap w ++ new0;
                     trace := EvLog LevelWarn "request attempt failed"
                                [("attempt", AInt attempt); ("max_retries", AInt (Retries c));
                                 ("method", AString (Method req'));
                                 ("url", AString (URL req')); ("error", AAny e)]
                              :: EvRoundTrip (n_calls w0) (Body req') bb (cancelled w0)
                              :: trace w0;
                     n_calls := S (n_calls w0); n_waits := n_waits w0;
                     cancelled := cancelled w0 |}) as (woke & Hwait).
      step Hwait.
      eexists _, _, new0, [_; _; _; _]. split; [reflexivity|].
      cbn [heap trace n_calls n_waits]. rewrite Ht0, Hc0, Hw0.
      split_and!; try reflexivity; eauto;
        try (eexists; split_and!; [reflexivity|reflexivity|exact Hinv']). lia.
  - (* a response *)
    cbv beta iota. cbn [StatusCode RespBody].
    destruct (shouldRetry status && (attempt <? Retries c)) eqn:Hsr.
    + apply andb_true_iff in Hsr as [Hst Hlt]. apply Z.ltb_lt in Hlt.
      unfold bind at 1.
      rewrite (Close_last (length (heap w ++ new0)) (heap w ++ new0) (stream_of body)
                 (after_round_trip req' bb ((heap w ++ new0) ++ [stream_of body]) w0)
                 eq_refl eq_refl).
      unfold bind at 1, log, emit.
      cbn [after_round_trip heap trace n_calls n_waits cancelled].
      match goal with
      | |- context [bind (waitBeforeRetry env c attempt) _ ?W] =>
          destruct (waitBeforeRetry_run env c attempt W) as (woke & Hwait)
      end.
      step Hwait.
      eexists _, _, (new0 ++ [closed (stream_of body)]), [_; _; _; _; _].
      split; [reflexivity|].
      cbn [heap trace n_calls n_waits]. rewrite Ht0, Hc0, Hw0, <- app_assoc.
      split_and!; try reflexivity; eauto;
        try (eexists; split_and!; [reflexivity|reflexivity|exact Hinv']).
      apply all_closed_snoc; [assumption|reflexivity].
    + eexists _, _, (new0 ++ [stream_of body]), [_]. split; [reflexivity|].
      cbn [after_round_trip heap trace n_calls n_waits]. rewrite Ht0, Hc0, Hw0, <- app_assoc.
      split_and!; try reflexivity; eauto;
        try (eexists; split_and!; [reflexivity|reflexivity|exact Hinv']).
      * exists new0, (stream_of body). rewrite length_app.
        split_and!; auto. destruct body as [[d e]|]; reflexivity.
      * apply andb_false_iff in Hsr as [Hs|Hs]; [left; assumption|right].
        apply Z.ltb_ge in Hs. assumption.
Qed.

(** *** The loop and [Do], in full *)

(** The loop, entered with enough fuel: it returns; it adds streams to the
    heap and events to the trace; it makes one invocation for each attempt it
    runs and one wait between two of them, with the delay of the earlier
    attempt; and its result is as [loop_result] says. *)
Lemma Do_loop_effects env c bb fuel : forall attempt req lastErr w,
  body_inv bb req ->
  (Z.to_nat (Retries c + 1 - attempt) <= fuel)%nat ->
  exists r w' new evs,
    Do_loop env c fuel req bb lastErr attempt w = (Ret r, w') /\
    heap w' = heap w ++ new /\
    trace w' = evs ++ trace w /\
    (forall sid, reads_of sid evs = O) /\
    n_calls w' = (n_calls w + length (round_trips evs))%nat /\
    (length (round_trips evs) <= Z.to_nat (Retries c + 1 - attempt))%nat /\
    n_waits w' = (n_waits w + pred (length (round_trips evs)))%nat /\
    map fst (sleeps evs) = rev (delays_from c attempt (pred (length (round_trips evs)))) /\
    Forall (fun i => inv_seen i = bb /\ (bb = None -> inv_body i = None)) (round_trips evs) /\
    loop_result c lastErr attempt (length (heap w)) new (length (round_trips evs)) r.
Proof.
  assert (Hexit : forall attempt req lastErr w fuel0, Retries c < attempt ->
    exists r w' new evs,
      Do_loop env c fuel0 req bb lastErr attempt w = (Ret r, w') /\
      heap w' = heap w ++ new /\
      trace w' = evs ++ trace w /\
      (forall sid, reads_of sid evs = O) /\
      n_calls w' = (n_calls w + length (round_trips evs))%nat /\
      (length (round_trips evs) <= Z.to_nat (Retries c + 1 - attempt))%nat /\
      n_waits w' = (n_waits w + pred (length (round_trips evs)))%nat /\
      map fst (sleeps evs) = rev (delays_from c attempt (pred (length (round_trips evs)))) /\
      Forall (fun i => inv_seen i = bb /\ (bb = None -> inv_body i = None))
             (round_trips evs) /\
      loop_result c lastErr attempt (length (heap w)) new (length (round_trips evs)) r).
  { intros attempt req lastErr w fuel0 Hgt. rewrite Do_loop_exit by assumption.
    destruct lastErr as [e|]; eexists _, w, [], []; simpl;
      rewrite app_nil_r;
      (split_and!; try reflexivity; try lia; try apply Forall_nil_2);
      (split; [apply Forall_nil_2 | split; [lia | left; split; reflexivity]]). }
  induction fuel as [|fuel IH]; intros attempt req lastErr w Hinv Hfuel.
  { apply Hexit. lia. }
  destruct (Z_lt_le_dec (Retries c) attempt) as [Hgt|Hle]; [apply Hexit; assumption|].
  destruct (Do_attempt_effects env c req bb lastErr attempt w Hinv)
    as (st & w1 & new1 & evs1 & Hatt & Hh1 & Ht1 & Hc1 & (i1 & Hr1 & Hi1) & Hd1 & Hheap1 & Hst).
  rewrite (Do_loop_step env c fuel req bb lastErr attempt w st w1 Hle Hatt).
  destruct st as [r|req' lastErr'].
  - (* the iteration returns *)
    destruct Hst as (Hw1 & Hs1 & Hr).
    exists r, w1, new1, evs1. rewrite Hr1, Hs1. simpl.
    split_and!; auto; try lia;
      try (apply Forall_cons_2; [exact Hi1|apply Forall_nil_2]).
    destruct r as [[resp|] [err|]]; simpl in *; try contradiction.
    + split; [lia|]. split; [|assumption].
      destruct Hr as [Hr|Hr]; [left; assumption|right; lia].
    + destruct Hr as (Hr & e & ->). split; [assumption|]. split; [lia|].
      right. split; [lia|eauto].
  - (* the iteration continues *)
    destruct Hst as (Hlt & Hinv' & Hw1 & Hs1).
    destruct (IH (attempt + 1) req' lastErr' w1 Hinv' ltac:(lia))
      as (r & w2 & new2 & evs2 & Hloop & Hh2 & Ht2 & Hd2 & Hc2 & Hk2 & Hw2 & Hs2 & Hf2 & Hres).
    exists r, w2, (new1 ++ new2), (evs2 ++ evs1).
    rewrite round_trips_app, length_app, Hr1. cbn [length].
    set (k2 := length (round_trips evs2)) in *.
    assert (Hk2pos : (1 <= k2)%nat).
    { destruct r as [[resp|] [err|]]; simpl in Hres; try contradiction.
      - tauto.
      - destruct Hres as (_ & Hk & _). lia. }
    replace (Z.to_nat (Retries c + 1 - attempt))
      with (S (Z.to_nat (Retries c + 1 - (attempt + 1)))) by lia.
    split_and!.
    + assumption.
    + rewrite Hh2, Hh1, app_assoc. reflexivity.
    + rewrite Ht2, Ht1, app_assoc. reflexivity.
    + intros sid. rewrite reads_of_app, Hd2, Hd1. reflexivity.
    + lia.
    + lia.
    + lia.
    + rewrite sleeps_app, map_app, Hs2, Hs1.
      replace (pred (k2 + 1)) with (S (pred k2)) by lia.
      rewrite delays_from_S. reflexivity.
    + apply Forall_app. split; [assumption|].
      apply Forall_cons_2; [exact Hi1|apply Forall_nil_2].
    + destruct r as [[resp|] [err|]]; simpl in Hres |- *; try contradiction.
      * destruct Hres as (_ & Hsr & pre & sr & -> & Hpre & Hsr' & Hb).
        split; [lia|]. split; [destruct Hsr as [?|?]; [left; assumption|right; lia]|].
        exists (new1 ++ pre), sr. rewrite app_assoc. split; [reflexivity|].
        split; [apply Forall_app; split; assumption|]. split; [assumption|].
        rewrite Hb, Hh1, !length_app. f_equal. lia.
      * destruct Hres as (Hcl & Hk & Hcase).
        split; [apply Forall_app; split; assumption|]. split; [lia|].
        right. split; [lia|].
        destruct Hcase as [[Hk0 _]|[_ He]]; [lia|assumption].
Qed.

(** [Do] as its loop, entered after the body of the request was dealt
    with, when the read did not fail. *)
Lemma Do_as_loop env c req w :
  body_readable req w ->
  exists bb w0,
    Do env c req w = Do_loop env c (Z.to_nat (Retries c)) req bb None 1 w0 /\
    heap w0 = heap_after_body req w /\
    trace w0 = body_events req w ++ trace w /\
    n_calls w0 = n_calls w /\ n_waits w0 = n_waits w /\
    body_inv bb req /\
    (Body req = None -> bb = None).
Proof.
  intros Hr. unfold heap_after_body, body_events.
  destruct (Body req) as [sid|] eqn:Hb.
  - destruct (Hr sid Hb) as (s & Hs & He). rewrite Hs, He.
    exists (Some (s_data s)), (after_read sid s w).
    rewrite (Do_readable env c req w sid s Hb Hs He).
    split_and!; try reflexivity; try discriminate.
    simpl. apply list_insert_insert_eq.
  - exists None, w. rewrite (Do_no_body env c req w Hb). split_and!; try reflexivity.
    intros _. assumption.
Qed.

Lemma heap_after_body_length req w : length (heap_after_body req w) = length (heap w).
Proof.
  unfold heap_after_body. destruct (Body req) as [sid|]; [|reflexivity].
  destruct (heap w !! sid) as [s|]; [|reflexivity].
  destruct (s_err s); apply length_insert.
Qed.

Lemma round_trips_body_events req w : round_trips (body_events req w) = [].
Proof.
  unfold body_events. destruct (Body req) as [sid|]; [|reflexivity].
  destruct (heap w !! sid) as [s|]; [|reflexivity]. destruct (s_err s); reflexivity.
Qed.


(** Everything a call of [Do] does when the body, if any, is read without
    error. *)
Lemma Do_effects env c req w :
  body_readable req w ->
  exists r w' new evs,
    Do env c req w = (Ret r, w') /\
    heap w' = heap_after_body req w ++ new /\
    trace w' = evs ++ body_events req w ++ trace w /\
    (forall sid, reads_of sid evs = O) /\
    n_calls w' = (n_calls w + length (round_trips evs))%nat /\
    (length (round_trips evs) <= Z.to_nat (Retries c))%nat /\
    n_waits w' = (n_waits w + pred (length (round_trips evs)))%nat /\
    map fst (sleeps evs) = rev (delays_from c 1 (pred (length (round_trips evs)))) /\
    (Body req = None ->
     Forall (fun i => inv_seen i = None /\ inv_body i = None) (round_trips evs)) /\
    loop_result c None 1 (length (heap w)) new (length (round_trips evs)) r.
Proof.
  intros Hr.
  destruct (Do_as_loop env c req w Hr) as (bb & w0 & Hdo & Hh0 & Ht0 & Hc0 & Hw0 & Hinv & Hbb).
  rewrite Hdo.
  destruct (Do_loop_effects env c _ (Z.to_nat (Retries c)) 1 req None w0 Hinv ltac:(lia))
    as (r & w' & new & evs & Hloop & Hh & Ht & Hd & Hc & Hk & Hw & Hs & Hf & Hres).
  exists r, w', new, evs.
  rewrite Hh0, Ht0, Hc0, Hw0, heap_after_body_length in *.
  replace (Retries c + 1 - 1) with (Retries c) in * by lia.
  split_and!; try assumption.
  intros Hnone. specialize (Hbb Hnone). subst bb.
  eapply Forall_impl; [exact Hf|]. intros i [H1 H2]. auto.
Qed.

Lemma Do_unreadable_effects env c req w sid s e :
  Body req = Some sid -> heap w !! sid = Some s -> s_err s = Some e ->
  exists w',
    Do env c req w = (Ret (None, Some (Errorf_read_body e)), w') /\
    heap w' = heap_after_body req w /\ trace w' = body_events req w ++ trace w /\
    n_calls w' = n_calls w /\ n_waits w' = n_waits w.
Proof.
  intros Hb Hs He. rewrite (Do_unreadable env c req w sid s e Hb Hs He).
  unfold heap_after_body, body_events. rewrite Hb, Hs, He.
  eexists. split_and!; reflexivity.
Qed.

Lemma body_valid_cases req w :
  body_valid req w ->
  body_readable req w \/
  exists sid s e, Body req = Some sid /\ heap w !! sid = Some s /\ s_err s = Some e.
Proof.
  intros Hv. destruct (Body req) as [sid|] eqn:Hb.
  - destruct (Hv sid Hb) as [s Hs]. destruct (s_err s) as [e|] eqn:He.
    + right. eauto 6.
    + left. intros sid' Hb'. rewrite Hb in Hb'. injection Hb' as <-. eauto.
  - left. intros sid Hb'. rewrite Hb in Hb'. discriminate.
Qed.

(** After [k] replies that call for another try, with attempts to spare, the
    loop stands [k] attempts further, [k] invocations later. *)
Lemma Do_loop_retries env c bb : forall k attempt req lastErr w,
  body_inv bb req ->
  attempt + Z.of_nat k <= Retries c ->
  (forall j req seen cn, (j < k)%nat ->
     retryable (transport env (n_calls w + j) req seen cn) = true) ->
  exists req' lastErr' w',
    body_inv bb req' /\
    n_calls w' = (n_calls w + k)%nat /\
    forall fuel,
      Do_loop env c (k + fuel) req bb lastErr attempt w
      = Do_loop env c fuel req' bb lastErr' (attempt + Z.of_nat k) w'.
Proof.
  induction k as [|k IH]; intros attempt req lastErr w Hinv Hk Hre.
  - exists req, lastErr, w. split_and!; auto.
    intros fuel. simpl. now rewrite Z.add_0_r.
  - destruct (Do_attempt_spec env c req bb lastErr attempt w Hinv)
      as (req' & w0 & r & w1 & st & w' & _ & _ & Hinv' & Hc0 & _ & _ & Hdo & _ & Hc1 & _ & _
          & Hatt & Hstep & (Hsc & _) & _).
    destruct (HttpClient_Do_reply _ _ _ _ _ Hdo) as (seen & Hrep).
    specialize (Hre O req' seen (cancelled w0) ltac:(lia)) as Hre0.
    rewrite Nat.add_0_r, <- Hc0 in Hre0.
    assert (Hst : exists lastErr', st = Continue req' lastErr').
    { destruct (transport env (n_calls w0) req' seen (cancelled w0)) as [e|status body].
      - subst r. simpl in Hstep.
        replace (attempt >=? Retries c) with false in Hstep
          by (symmetry; rewrite Z.geb_leb; apply Z.leb_gt; lia).
        injection Hstep as <-. eauto.
      - destruct Hrep as (b & ->). simpl in Hstep, Hre0. rewrite Hre0 in Hstep.
        replace (attempt <? Retries c) with true in Hstep by (symmetry; apply Z.ltb_lt; lia).
        injection Hstep as <-. eauto. }
    destruct Hst as (lastErr' & ->).
    destruct (IH (attempt + 1) req' lastErr' w' Hinv' ltac:(lia)) as (req2 & le2 & w2 & Hinv2 & Hc2 & Hloop).
    { intros j rq sn cn Hj. replace (n_calls w' + j)%nat with (n_calls w + S j)%nat by lia.
      apply Hre. lia. }
    exists req2, le2, w2. split_and!; auto; [lia|].
    intros fuel. change (S k + fuel)%nat with (S (k + fuel)).
    rewrite (Do_loop_step env c (k + fuel) req bb lastErr attempt w _ w' ltac:(lia) Hatt).
    rewrite Hloop. f_equal. lia.
Qed.

(** [Do] returns the response of the invocation [k + 1] when the replies
    before it call for another try and this one is a response that either
    has a status [shouldRetry] refuses or comes at the last attempt. *)
Lemma Do_returns_at_reply env c req w k :
  Z.of_nat (S k) <= Retries c ->
  body_readable req w ->
  (forall j rq seen cn, (j < k)%nat ->
     retryable (transport env (n_calls w + j) rq seen cn) = true) ->
  (forall rq seen cn, exists status body,
     transport env (n_calls w + k) rq seen cn = ReplyResp status body /\
     (shouldRetry status = false \/ Retries c = Z.of_nat (S k))) ->
  exists resp w' req' w1,
    Do env c req w = (Ret (Some resp, None), w') /\
    n_calls w' = (n_calls w + S k)%nat /\
    n_calls w1 = (n_calls w + k)%nat /\
    HttpClient_Do env req' w1 = (Ret (Some resp, None), w') /\
    exists seen body,
      transport env (n_calls w + k) req' seen (cancelled w1)
      = ReplyResp (StatusCode resp) body.
Proof.
  intros Hk Hr Hre Hlast.
  destruct (Do_as_loop env c req w Hr) as (bb & w0 & Hdo & _ & _ & Hc0 & _ & Hinv & _).
  rewrite Hdo. clear Hdo.
  destruct (Do_loop_retries env c bb k 1 req None w0 Hinv ltac:(lia))
    as (req1 & le1 & w1 & Hinv1 & Hc1 & Hloop).
  { intros j rq sn cn Hj. rewrite Hc0. apply Hre. assumption. }
  replace (Z.to_nat (Retries c)) with (k + S (Z.to_nat (Retries c) - S k))%nat by lia.
  rewrite Hloop.
  destruct (Do_attempt_spec env c req1 bb le1 (1 + Z.of_nat k) w1 Hinv1)
    as (req' & w2 & r & w3 & st & w' & Hres & _ & _ & Hc2 & _ & _ & Hhttp & _ & Hc3 & _ & _
        & Hatt & Hstep & _ & Hsame).
  rewrite (Do_loop_step env c _ req1 bb le1 (1 + Z.of_nat k) w1 st w' ltac:(lia) Hatt).
  destruct (HttpClient_Do_reply _ _ _ _ _ Hhttp) as (seen & Hrep).
  destruct (Hlast req' seen (cancelled w2)) as (status & body & Hreply & Hno).
  rewrite Hc2, Hc1, Hc0 in Hrep. rewrite Hreply in Hrep. destruct Hrep as (b & ->).
  assert (Hcond : shouldRetry status && (1 + Z.of_nat k <? Retries c) = false).
  { destruct Hno as [-> | Hlast']; [reflexivity|].
    replace (1 + Z.of_nat k <? Retries c) with false
      by (symmetry; apply Z.ltb_ge; lia).
    apply andb_false_r. }
  cbn [step_of StatusCode] in Hstep. rewrite Hcond in Hstep. injection Hstep as <-.
  rewrite (Hsame _ eq_refl ltac:(discriminate)).
  exists {| StatusCode := status; RespBody := Some b |}, w3, req', w2.
  split_and!; auto; try lia.
  exists seen, body. exact Hreply.
Qed.

(** ** The claims *)

(** Claim C1.  When the request carries a body, [Do] reads the stream the
    caller supplied exactly once, and that read is the first thing it does;
    every invocation of the transport that follows gets a stream that did
    not exist before the call, that no other invocation gets, and that holds
    exactly the bytes the caller's stream held; there is such an invocation
    as soon as the read succeeds and an attempt is allowed.  (When the read
    fails there is no invocation at all.) *)
Theorem Do_replays_body env c req w sid s :
  Body req = Some sid -> heap w !! sid = Some s ->
  exists r w' evs,
    Do env c req w = (Ret r, w') /\
    trace w' = evs ++ trace w /\
    reads_of sid evs = 1%nat /\
    last evs = Some (EvReadAll sid) /\
    n_calls w' = (n_calls w + length (round_trips evs))%nat /\
    (s_err s = None -> 1 <= Retries c -> round_trips evs <> []) /\
    Forall (fun i => inv_seen i = Some (s_data s) /\
                     exists b, inv_body i = Some b /\ b <> sid /\ heap w !! b = None)
           (round_trips evs) /\
    NoDup (map inv_body (round_trips evs)).
Proof.
  intros Hb Hs. destruct (s_err s) as [e|] eqn:He.
  - rewrite (Do_unreadable env c req w sid s e Hb Hs He).
    eexists _, _, [EvReadAll sid]. simpl. rewrite Nat.eqb_refl.
    split_and!; auto using NoDup_nil_2; try discriminate.
  - rewrite (Do_readable env c req w sid s Hb Hs He).
    destruct (Do_loop_total env c (Some (s_data s)) (Z.to_nat (Retries c)) 1 req None
                (after_read sid s w)) as (r & w' & Hloop & _);
      [intros [=] | lia |].
    destruct (Do_loop_replay env c (s_data s) (Z.to_nat (Retries c)) 1 req None
                (after_read sid s w)) as (r2 & w2 & evs & Hloop2 & Ht & Hd & Hl & Hc & Hf & Hn).
    rewrite Hloop in Hloop2. injection Hloop2 as <- <-.
    exists r, w', (evs ++ [EvClose sid; EvReadAll sid]).
    assert (Hlen : length (heap (after_read sid s w)) = length (heap w)).
    { simpl. now rewrite !length_insert. }
    assert (Hrt : round_trips (evs ++ [EvClose sid; EvReadAll sid]) = round_trips evs).
    { rewrite round_trips_app. simpl. apply app_nil_r. }
    rewrite Hrt. split_and!; auto.
    + rewrite Ht. simpl. rewrite <- app_assoc. reflexivity.
    + rewrite reads_of_app, Hd. simpl. now rewrite Nat.eqb_refl.
    + change [EvClose sid; EvReadAll sid] with ([EvClose sid] ++ [EvReadAll sid]).
      rewrite app_assoc. apply last_snoc.
    + intros _ Hpos Hnil.
      destruct (Z.to_nat (Retries c)) as [|fuel] eqn:Hfuel; [lia|].
      destruct (Do_loop_invokes env c (s_data s) fuel 1 req None (after_read sid s w) Hpos)
        as (r3 & w3 & Hloop3 & Hlt).
      rewrite Hloop in Hloop3. injection Hloop3 as <- <-.
      rewrite Hnil in Hc. simpl in Hc, Hlt. lia.
    + eapply Forall_impl; [exact Hf|]. intros i (Hseen & b & Hbody & Hlo & Hhi).
      split; [assumption|]. exists b. rewrite Hlen in Hlo.
      pose proof (lookup_lt_Some _ _ _ Hs).
      split_and!; [assumption|lia|]. apply lookup_ge_None. lia.
Qed.

Lemma Do_replays_body_witness :
  exists r w' evs,
    Do (server 500) (New [WithRetries 3]) post (world_of [readable payload]) = (Ret r, w') /\
    trace w' = evs ++ trace (world_of [readable payload]) /\
    reads_of O evs = 1%nat /\
    last evs = Some (EvReadAll O) /\
    n_calls w' = (n_calls (world_of [readable payload]) + length (round_trips evs))%nat /\
    (s_err (readable payload) = None -> 1 <= Retries (New [WithRetries 3]) ->
     round_trips evs <> []) /\
    Forall (fun i => inv_seen i = Some (s_data (readable payload)) /\
                     exists b, inv_body i = Some b /\ b <> O /\
                               heap (world_of [readable payload]) !! b = None)
           (round_trips evs) /\
    NoDup (map inv_body (round_trips evs)).
Proof.
  apply (Do_replays_body (server 500) (New [WithRetries 3]) post
           (world_of [readable payload]) O (readable payload)); reflexivity.
Defined.

(** Claim C2, at a failing input.  Three attempts, a server that answers
    500, and a context cancelled during the first backoff wait:
    [waitBeforeRetry] returns early, but the loop of [Do] goes on, and the
    transport is invoked for the attempts 2 and 3 under the cancelled
    context (with a second wait in between) before [Do] returns the error
    of the last attempt. *)
Theorem Do_calls_transport_after_cancellation :
  exists w',
    Do cancelled_in_backoff (New [WithRetries 3]) get (world_of [])
    = (Ret (None, Some (Errorf_attempts 3 context_canceled)), w') /\
    sleeps (trace w') = [(200 * Millisecond, CtxDone); (100 * Millisecond, CtxDone)] /\
    map (fun i => (inv_idx i, inv_cancelled i)) (round_trips (trace w'))
    = [(2%nat, true); (1%nat, true); (O, false)].
Proof. eexists. split_and!; vm_compute; reflexivity. Qed.

(** Claim C3.  [shouldRetry] holds exactly for 429, 408 and the statuses
    from 500 to 599.  A response with any other status ends the call: when
    the replies to the first [k] invocations of a call of [Do] call for
    another try and the reply to the next one is a response whose status is
    none of these, [Do] returns that response with a nil error after
    exactly [k + 1] invocations, however many attempts [c.Retries] would
    still allow.  The same in every iteration of the loop, whatever
    [attempt] and whatever is left of the loop: the response is returned at
    once, in the world that invocation of the transport left. *)
Theorem shouldRetry_exact_and_terminal :
  (forall statusCode,
      shouldRetry statusCode = true <->
      statusCode = 429 \/ statusCode = 408 \/ 500 <= statusCode <= 599) /\
  (forall env c req w k,
      Z.of_nat (S k) <= Retries c ->
      body_readable req w ->
      (forall j rq seen cn, (j < k)%nat ->
         retryable (transport env (n_calls w + j) rq seen cn) = true) ->
      (forall rq seen cn, exists status body,
         transport env (n_calls w + k) rq seen cn = ReplyResp status body /\
         status <> 429 /\ status <> 408 /\ ~ 500 <= status <= 599) ->
      exists resp w' req' w1,
        Do env c req w = (Ret (Some resp, None), w') /\
        (StatusCode resp <> 429 /\ StatusCode resp <> 408 /\
         ~ 500 <= StatusCode resp <= 599) /\
        n_calls w' = (n_calls w + S k)%nat /\
        n_calls w1 = (n_calls w + k)%nat /\
        HttpClient_Do env req' w1 = (Ret (Some resp, None), w')) /\
  (forall env c fuel req bodyBytes lastErr attempt w req' w0 resp w1,
      attempt <= Retries c ->
      restore_body bodyBytes req w = (Ret req', w0) ->
      HttpClient_Do env req' w0 = (Ret (Some resp, None), w1) ->
      shouldRetry (StatusCode resp) = false ->
      Do_loop env c (S fuel) req bodyBytes lastErr attempt w = (Ret (Some resp, None), w1) /\
      n_calls w1 = S (n_calls w)).
Proof.
  assert (Hex : forall statusCode,
      shouldRetry statusCode = true <->
      statusCode = 429 \/ statusCode = 408 \/ 500 <= statusCode <= 599).
  { intros statusCode. unfold shouldRetry, StatusTooManyRequests, StatusRequestTimeout.
    rewrite !orb_true_iff, andb_true_iff, !Z.eqb_eq, Z.geb_le, Z.ltb_lt. lia. }
  split_and!.
  - exact Hex.
  - intros env c req w k Hk Hr Hre Hlast.
    destruct (Do_returns_at_reply env c req w k Hk Hr Hre)
      as (resp & w' & req' & w1 & Hdo & Hc & Hc1 & Hhttp & seen & body & Hreply).
    { intros rq seen cn. destruct (Hlast rq seen cn) as (status & body & Hrep & Hst).
      exists status, body. split; [exact Hrep|]. left.
      destruct (shouldRetry status) eqn:E; [|reflexivity].
      apply Hex in E. lia. }
    exists resp, w', req', w1. split_and!; auto;
      destruct (Hlast req' seen (cancelled w1)) as (status & body' & Hrep & Hst);
      rewrite Hreply in Hrep; injection Hrep as -> _; tauto.
  - intros env c fuel req bb lastErr attempt w req' w0 resp w1 Hle Hres Hdo Hno. split.
    + eapply Do_loop_return; eauto. now rewrite Hno.
    + rewrite (HttpClient_Do_calls _ _ _ _ _ Hdo), (restore_body_calls _ _ _ _ _ Hres).
      reflexivity.
Qed.

Lemma shouldRetry_exact_and_terminal_witness :
  (exists resp w' req' w1,
     Do (scripted [ReplyResp 429 (Some ([], None)); ReplyResp 301 (Some (payload, None))] None)
        (New [WithRetries 4]) post (world_of [readable payload])
     = (Ret (Some resp, None), w') /\
     (StatusCode resp <> 429 /\ StatusCode resp <> 408 /\
      ~ 500 <= StatusCode resp <= 599) /\
     n_calls w' = (n_calls (world_of [readable payload]) + 2)%nat /\
     n_calls w1 = (n_calls (world_of [readable payload]) + 1)%nat /\
     HttpClient_Do
       (scripted [ReplyResp 429 (Some ([], None)); ReplyResp 301 (Some (payload, None))] None)
       req' w1 = (Ret (Some resp, None), w')) /\
  (exists w1,
     Do_loop (server 404) (New [WithRetries 3]) 3 get None None 1 (world_of [])
     = (Ret (Some {| StatusCode := 404; RespBody := Some O |}, None), w1) /\
     n_calls w1 = S (n_calls (world_of []))).
Proof.
  split.
  - apply (proj1 (proj2 shouldRetry_exact_and_terminal)
             (scripted [ReplyResp 429 (Some ([], None)); ReplyResp 301 (Some (payload, None))]
                None)
             (New [WithRetries 4]) post (world_of [readable payload]) 1%nat).
    + vm_compute. discriminate.
    + intros sid [= <-]. eexists. split; reflexivity.
    + intros j rq seen cn Hj. destruct j as [|j]; [reflexivity|lia].
    + intros rq seen cn. exists 301, (Some (payload, None)).
      split; [reflexivity|]. lia.
  - eexists.
    apply (proj2 (proj2 shouldRetry_exact_and_terminal) (server 404) (New [WithRetries 3])
             2%nat get None None 1 (world_of []) get (world_of [])).
    + vm_compute. discriminate.
    + reflexivity.
    + reflexivity.
    + reflexivity.
Defined.

(** Claim C4.  When the replies to the first [c.Retries - 1] invocations of
    a call of [Do] call for another try and the reply to the last one is a
    response whose status [shouldRetry] accepts, [Do] returns that response,
    with a nil error, after exactly [c.Retries] invocations.  The same in
    the loop: in its last iteration ([attempt] is [c.Retries]) the response
    of the transport is what the loop returns, with a nil error.  And [Do]
    always returns, with exactly one of the response and the error nil, so
    never with both. *)
Theorem Do_exhausted_returns_last_response :
  (forall env c req w k,
      Retries c = Z.of_nat (S k) ->
      body_readable req w ->
      (forall j rq seen cn, (j < k)%nat ->
         retryable (transport env (n_calls w + j) rq seen cn) = true) ->
      (forall rq seen cn, exists status body,
         transport env (n_calls w + k) rq seen cn = ReplyResp status body /\
         shouldRetry status = true) ->
      exists resp w' req' w1,
        Do env c req w = (Ret (Some resp, None), w') /\
        shouldRetry (StatusCode resp) = true /\
        Z.of_nat (n_calls w') = Z.of_nat (n_calls w) + Retries c /\
        n_calls w1 = (n_calls w + k)%nat /\
        HttpClient_Do env req' w1 = (Ret (Some resp, None), w')) /\
  (forall env c fuel req bodyBytes lastErr w req' w0 resp w1,
      restore_body bodyBytes req w = (Ret req', w0) ->
      HttpClient_Do env req' w0 = (Ret (Some resp, None), w1) ->
      shouldRetry (StatusCode resp) = true ->
      Do_loop env c (S fuel) req bodyBytes lastErr (Retries c) w
      = (Ret (Some resp, None), w1)) /\
  (forall env c req w,
      body_valid req w ->
      exists r w', Do env c req w = (Ret r, w') /\ exactly_one r).
Proof.
  split_and!.
  - intros env c req w k Hk Hr Hre Hlast.
    destruct (Do_returns_at_reply env c req w k ltac:(lia) Hr Hre)
      as (resp & w' & req' & w1 & Hdo & Hc & Hc1 & Hhttp & seen & body & Hreply).
    { intros rq seen cn. destruct (Hlast rq seen cn) as (status & body & Hrep & _).
      exists status, body. split; [exact Hrep|]. right. exact Hk. }
    exists resp, w', req', w1. split_and!; auto; [|lia].
    destruct (Hlast req' seen (cancelled w1)) as (status & body' & Hrep & Hst).
    rewrite Hreply in Hrep. injection Hrep as -> _. exact Hst.
  - intros env c fuel req bb lastErr w req' w0 resp w1 Hres Hdo Hyes.
    eapply Do_loop_return; eauto; [lia|].
    rewrite Z.ltb_irrefl. apply andb_false_r.
  - apply Do_total.
Qed.

Lemma Do_exhausted_returns_last_response_witness :
  (exists resp w' req' w1,
     Do (server 503) (New [WithRetries 3]) post (world_of [readable payload])
     = (Ret (Some resp, None), w') /\
     shouldRetry (StatusCode resp) = true /\
     Z.of_nat (n_calls w')
     = Z.of_nat (n_calls (world_of [readable payload])) + Retries (New [WithRetries 3]) /\
     n_calls w1 = (n_calls (world_of [readable payload]) + 2)%nat /\
     HttpClient_Do (server 503) req' w1 = (Ret (Some resp, None), w')) /\
  (exists w1,
     Do_loop (server 503) (New [WithRetries 3]) 1 get None None 3 (world_of [])
     = (Ret (Some {| StatusCode := 503; RespBody := Some O |}, None), w1)) /\
  (exists r w', Do (server 503) (New [WithRetries 3]) post (world_of [readable payload])
                = (Ret r, w') /\ exactly_one r).
Proof.
  split_and!.
  - apply (proj1 Do_exhausted_returns_last_response (server 503) (New [WithRetries 3]) post
             (world_of [readable payload]) 2%nat).
    + reflexivity.
    + intros sid [= <-]. eexists. split; reflexivity.
    + intros j rq seen cn Hj. reflexivity.
    + intros rq seen cn. exists 503, (Some ([], None)). split; reflexivity.
  - eexists.
    apply (proj1 (proj2 Do_exhausted_returns_last_response) (server 503)
             (New [WithRetries 3]) O get None None (world_of []) get (world_of []));
      reflexivity.
  - apply (proj2 (proj2 Do_exhausted_returns_last_response) (server 503)
             (New [WithRetries 3]) post (world_of [readable payload])).
    intros sid [= <-]. eexists. reflexivity.
Defined.

(** Claim C5, at a failing input.  With the default delays and 39 attempts,
    the wait after attempt 38 is computed as -4702848726509551616ns: the
    product [RetryDelay * 2^37] leaves the 64-bit range and wraps to a
    negative duration, which is below the cap and is slept as it is, where
    the formula of the claim gives the cap of 5s; a call of [Do] against a
    server that answers 500 gets there, its last wait being that one.
    (Inside the range the code and the formula agree, see
    [retryDelay_in_range].) *)
Theorem retryDelay_overflows :
  retryDelay (New [WithRetries 39]) 38 = -4702848726509551616 /\
  Z.min (RetryDelay (New [WithRetries 39]) * 2 ^ (38 - 1))
        (MaxRetryWait (New [WithRetries 39])) = 5 * Second /\
  exists r w',
    Do (server 500) (New [WithRetries 39]) get (world_of []) = (Ret r, w') /\
    n_calls w' = 39%nat /\
    head (sleeps (trace w')) = Some (-4702848726509551616, TimerFired).
Proof.
  split; [vm_compute; reflexivity|]. split; [vm_compute; reflexivity|].
  eexists _, _. split_and!; vm_compute; reflexivity.
Qed.

(** Claim C6.  When reading the body of the request fails, [Do] returns a
    nil response and an error that wraps the read error under the text
    "failed to read request body: ", the transport is not invoked, and the
    read is all that happened. *)
Theorem Do_body_read_error env c req w sid s e :
  Body req = Some sid -> heap w !! sid = Some s -> s_err s = Some e ->
  exists err w',
    Do env c req w = (Ret (None, Some err), w') /\
    Error err = "failed to read request body: " +:+ Error e /\
    Unwrap err = Some e /\
    n_calls w' = n_calls w /\
    trace w' = EvReadAll sid :: trace w.
Proof.
  intros Hb Hs He. rewrite (Do_unreadable env c req w sid s e Hb Hs He).
  eexists _, _. split; [reflexivity|]. repeat split.
Qed.

Lemma Do_body_read_error_witness :
  exists err w',
    Do (server 200) (New []) post (world_of [failing read_error]) = (Ret (None, Some err), w') /\
    Error err = "failed to read request body: " +:+ Error read_error /\
    Unwrap err = Some read_error /\
    n_calls w' = n_calls (world_of [failing read_error]) /\
    trace w' = EvReadAll O :: trace (world_of [failing read_error]).
Proof.
  apply (Do_body_read_error (server 200) (New []) post (world_of [failing read_error])
           O (failing read_error) read_error); reflexivity.
Defined.

(** Claim C7 as it is stated fails under a negative limit: with
    [WithMaxBodySize(-1)] the capture of the response body "payload" does
    not return (the slice expression of [readBody] panics). *)
Lemma capture_negative_limit_panics :
  fst (logger.logResponse
         (logger.NewLoggingRoundTripper
            [logger.WithBodyLogging true; logger.WithMaxBodySize (-1)])
         get ok_response (5 * Millisecond) (world_of [readable payload]))
  = Panic slice_bounds /\
  ~ response_capture
      (logger.NewLoggingRoundTripper [logger.WithBodyLogging true; logger.WithMaxBodySize (-1)])
      get ok_response (5 * Millisecond) (world_of [readable payload]).
Proof.
  split; [vm_compute; reflexivity|].
  intros H.
  destruct (H O (readable payload) eq_refl eq_refl eq_refl) as (resp' & w' & r & text & Heq & _).
  vm_compute in Heq. discriminate Heq.
Qed.

(** Claim C7, amended.  With body capture enabled and a limit
    [maxBodySize >= 0]: the text logged for a captured request or response
    body is its first [maxBodySize] bytes when the body is longer than the
    limit and the whole body otherwise, while the stream put in its place is
    a new one that holds every byte of the body. *)
Theorem capture_truncates_log_only l :
  0 <= logger.maxBodySize l -> logger.logBodies l = true ->
  (forall req w, request_capture l req w) /\
  (forall req resp duration w, response_capture l req resp duration w).
Proof.
  intros Hl Hlog. split.
  - intros req w body s Hb Hs He.
    destruct (after_capture_fresh body s (s_data s) w) as [Hf1 Hf2].
    eexists _, _, (length (heap w)), _. split.
    { unfold logger.logRequest. rewrite Hlog, Hb. cbn [negb].
      unfold bind at 1. rewrite (readBody_ok body _ w s Hs He Hl). reflexivity. }
    split; [reflexivity|].
    split; [|split_and!; auto].
    unfold logger.string_of_bytes. rewrite list_byte_of_string_of_list_byte.
    apply kept_for_log_intro.
  - intros req resp duration w body s Hb Hs He.
    destruct (after_capture_fresh body s (s_data s) w) as [Hf1 Hf2].
    eexists _, _, (length (heap w)), _. split.
    { unfold logger.logResponse. rewrite Hlog, Hb.
      unfold bind at 1. unfold bind at 1.
      rewrite (readBody_ok body _ w s Hs He Hl). reflexivity. }
    split; [reflexivity|].
    split; [|split_and!; auto].
    unfold logger.string_of_bytes. rewrite list_byte_of_string_of_list_byte.
    apply kept_for_log_intro.
Qed.

Lemma capture_truncates_log_only_witness :
  (exists req' w' r text,
     logger.logRequest
       (logger.NewLoggingRoundTripper [logger.WithBodyLogging true; logger.WithMaxBodySize 3])
       post (world_of [readable payload]) = (Ret req', w') /\
     trace w' = EvLog LevelDebug "http request body" [("body", AString text)]
                :: EvClose O :: EvReadAll O :: trace (world_of [readable payload]) /\
     kept_for_log 3 payload (list_byte_of_string text) /\
     Body req' = Some r /\
     heap (world_of [readable payload]) !! r = None /\
     heap w' !! r = Some (readable payload)) /\
  (exists resp' w' r text,
     logger.logResponse
       (logger.NewLoggingRoundTripper [logger.WithBodyLogging true; logger.WithMaxBodySize 3])
       get ok_response (5 * Millisecond) (world_of [readable payload]) = (Ret resp', w') /\
     trace w' = EvLog LevelInfo "http request completed"
                  [("method", AString (Method get)); ("url", AString (URL get));
                   ("status", AInt (StatusCode ok_response));
                   ("duration", ADuration (5 * Millisecond))]
                :: EvLog LevelDebug "http response body" [("body", AString text)]
                :: EvClose O :: EvReadAll O :: trace (world_of [readable payload]) /\
     kept_for_log 3 payload (list_byte_of_string text) /\
     StatusCode resp' = StatusCode ok_response /\
     RespBody resp' = Some r /\
     heap (world_of [readable payload]) !! r = None /\
     heap w' !! r = Some (readable payload)).
Proof.
  split.
  - apply (proj1 (capture_truncates_log_only
                    (logger.NewLoggingRoundTripper
                       [logger.WithBodyLogging true; logger.WithMaxBodySize 3])
                    ltac:(vm_compute; discriminate) eq_refl)
             post (world_of [readable payload]) O (readable payload)); reflexivity.
  - apply (proj2 (capture_truncates_log_only
                    (logger.NewLoggingRoundTripper
                       [logger.WithBodyLogging true; logger.WithMaxBodySize 3])
                    ltac:(vm_compute; discriminate) eq_refl)
             get ok_response (5 * Millisecond) (world_of [readable payload])
             O (readable payload)); reflexivity.
Defined.

Example capture_of_payload :
  exists resp' w',
    logger.logResponse
      (logger.NewLoggingRoundTripper [logger.WithBodyLogging true; logger.WithMaxBodySize 3])
      get ok_response (5 * Millisecond) (world_of [readable payload]) = (Ret resp', w') /\
    logged LevelDebug "http response body" (trace w') = [[("body", AString "pay")]] /\
    RespBody resp' = Some 1%nat /\
    heap w' !! 1%nat = Some (readable payload).
Proof. eexists _, _. split_and!; vm_compute; reflexivity. Qed.

(** Claim C8.  With [c.Retries = N], [N >= 1], and a transport that answers
    500 to every invocation, [Do] invokes the transport exactly [N] times
    and returns, with a nil error, the response of status 500 that the
    [N]-th invocation returned: the result and the final world of [Do] are
    those of an invocation made after [N - 1] earlier ones.  (The body of
    the request, if there is one, is readable: otherwise no invocation
    takes place, which is claim C6.) *)
Theorem Do_always_500 env c req w N :
  Retries c = N -> 1 <= N -> always_500 env -> body_readable req w ->
  exists resp w' req' w1,
    Do env c req w = (Ret (Some resp, None), w') /\
    StatusCode resp = 500 /\
    Z.of_nat (n_calls w') = Z.of_nat (n_calls w) + N /\
    Z.of_nat (n_calls w1) = Z.of_nat (n_calls w) + N - 1 /\
    HttpClient_Do env req' w1 = (Ret (Some resp, None), w').
Proof.
  intros HN Hpos H500 Hr.
  assert (Hloop : forall bb w0, body_inv bb req -> n_calls w0 = n_calls w ->
    exists resp w' req' w1,
      Do_loop env c (Z.to_nat (Retries c)) req bb None 1 w0 = (Ret (Some resp, None), w') /\
      StatusCode resp = 500 /\
      Z.of_nat (n_calls w') = Z.of_nat (n_calls w) + N /\
      Z.of_nat (n_calls w1) = Z.of_nat (n_calls w) + N - 1 /\
      HttpClient_Do env req' w1 = (Ret (Some resp, None), w')).
  { intros bb w0 Hinv Hc.
    destruct (Do_loop_500 env c bb H500 (Z.to_nat (N - 1)) (Z.to_nat (Retries c)) 1 req None w0
                Hinv ltac:(lia) ltac:(lia))
      as (resp & w' & req' & w1 & Hl & Hst & Hdo & Hc1 & Hc').
    exists resp, w', req', w1. split_and!; auto; lia. }
  destruct (Body req) as [sid|] eqn:Hb.
  - destruct (Hr sid Hb) as (s & Hs & He).
    rewrite (Do_readable env c req w sid s Hb Hs He).
    apply Hloop; [intros [=]|reflexivity].
  - rewrite (Do_no_body env c req w Hb). apply Hloop; [intros _; assumption|reflexivity].
Qed.

Lemma Do_always_500_witness :
  exists resp w' req' w1,
    Do (server 500) (New [WithRetries 3]) post (world_of [readable payload])
    = (Ret (Some resp, None), w') /\
    StatusCode resp = 500 /\
    Z.of_nat (n_calls w') = Z.of_nat (n_calls (world_of [readable payload])) + 3 /\
    Z.of_nat (n_calls w1) = Z.of_nat (n_calls (world_of [readable payload])) + 3 - 1 /\
    HttpClient_Do (server 500) req' w1 = (Ret (Some resp, None), w').
Proof.
  apply (Do_always_500 (server 500) (New [WithRetries 3]) post (world_of [readable payload]) 3).
  - reflexivity.
  - vm_compute. discriminate.
  - intros idx req seen cn. eexists. reflexivity.
  - intros sid [= <-]. eexists. split; reflexivity.
Defined.

(** Claim C9.  With body capture enabled, a request body whose read fails
    does not stop the round trip: [logRequest] logs a warning with the
    error, puts a new, empty, open stream in the place of the body, and
    [RoundTrip] goes on to invoke the transport with that request and deals
    with its answer as always, an error being returned as it is and a
    response going through [logResponse].  A response body whose read fails
    is handled the same way: a warning, an empty open stream in its place,
    the completion record, and the response is returned. *)
Theorem RoundTrip_survives_read_failure env l :
  logger.logBodies l = true ->
  (forall req w body s e,
      Body req = Some body -> heap w !! body = Some s -> s_err s = Some e ->
      let empty := length (heap w) in
      let req' := {| Method := Method req; URL := URL req; Body := Some empty |} in
      exists w1 res w2,
        logger.logRequest l req w = (Ret req', w1) /\
        trace w1 = EvLog LevelWarn "failed to read request body" [("error", AAny e)]
                   :: EvClose body :: EvReadAll body :: trace w /\
        heap w1 !! empty = Some (readable []) /\
        Transport_RoundTrip env req' w1 = (Ret res, w2) /\
        trace w2 = EvRoundTrip (n_calls w) (Some empty) (Some []) (cancelled w) :: trace w1 /\
        match res with
        | (None, Some err) =>
            exists w3, logger.RoundTrip env l req w = (Ret (None, Some err), w3) /\
                       trace w3 = EvLog LevelError "http request failed"
                                    [("method", AString (Method req));
                                     ("url", AString (URL req));
                                     ("duration", ADuration (elapsed env (n_calls w)));
                                     ("error", AAny err)] :: trace w2
        | (Some resp, None) =>
            logger.RoundTrip env l req w
            = (let* resp := logger.logResponse l req' resp (elapsed env (n_calls w)) in
               ret (Some resp, None)) w2
        | _ => False
        end) /\
  (forall req resp duration w body s e,
      RespBody resp = Some body -> heap w !! body = Some s -> s_err s = Some e ->
      let empty := length (heap w) in
      exists w',
        logger.logResponse l req resp duration w
        = (Ret {| StatusCode := StatusCode resp; RespBody := Some empty |}, w') /\
        trace w' = EvLog LevelInfo "http request completed"
                     [("method", AString (Method req)); ("url", AString (URL req));
                      ("status", AInt (StatusCode resp)); ("duration", ADuration duration)]
                   :: EvLog LevelWarn "failed to read response body" [("error", AAny e)]
                   :: EvClose body :: EvReadAll body :: trace w /\
        heap w' !! empty = Some (readable [])).
Proof.
  intros Hlog. split.
  - intros req w body s e Hb Hs He empty req'.
    pose proof (logRequest_fail l req w body s e Hlog Hb Hs He) as Hreq.
    fold empty in Hreq. fold req' in Hreq.
    set (w1 := {| heap := heap (after_capture body s [] w);
                  trace := EvLog LevelWarn "failed to read request body" [("error", AAny e)]
                           :: EvClose body :: EvReadAll body :: trace w;
                  n_calls := n_calls w; n_waits := n_waits w; cancelled := cancelled w |}) in *.
    assert (Hempty : empty = length (heap (after_read body s w)))
      by (symmetry; apply after_read_length).
    destruct (Transport_RoundTrip_fresh env req' w1 (heap (after_read body s w)) (readable []))
      as (res & w2 & Htr & Ht2 & Hc2 & Hone).
    { reflexivity. }
    { simpl. now rewrite Hempty. }
    exists w1, res, w2. split; [assumption|]. split; [reflexivity|].
    split; [apply after_capture_fresh|]. split; [assumption|].
    split; [rewrite Ht2, <- Hempty; reflexivity|].
    destruct res as [[resp|] [err|]]; try contradiction.
    + unfold logger.RoundTrip.
      step Hreq. unfold bind at 1. step Htr.
      reflexivity.
    + eexists. unfold logger.RoundTrip.
      step Hreq. unfold bind at 1. step Htr.
      split; reflexivity.
  - intros req resp duration w body s e Hb Hs He empty.
    eexists. split.
    { unfold logger.logResponse. rewrite Hlog, Hb.
      unfold bind at 1. unfold bind at 1.
      rewrite (readBody_fail body _ w s e Hs He). reflexivity. }
    split; [reflexivity|]. apply after_capture_fresh.
Qed.

Lemma RoundTrip_survives_read_failure_witness :
  (exists w1 res w2,
     logger.logRequest (logger.NewLoggingRoundTripper [logger.WithBodyLogging true])
       post (world_of [failing read_error])
     = (Ret {| Method := Method post; URL := URL post; Body := Some 1%nat |}, w1) /\
     trace w1 = EvLog LevelWarn "failed to read request body" [("error", AAny read_error)]
                :: EvClose O :: EvReadAll O :: trace (world_of [failing read_error]) /\
     heap w1 !! 1%nat = Some (readable []) /\
     Transport_RoundTrip (server 200)
       {| Method := Method post; URL := URL post; Body := Some 1%nat |} w1 = (Ret res, w2) /\
     trace w2 = EvRoundTrip O (Some 1%nat) (Some []) false :: trace w1 /\
     match res with
     | (None, Some err) =>
         exists w3,
           logger.RoundTrip (server 200)
             (logger.NewLoggingRoundTripper [logger.WithBodyLogging true])
             post (world_of [failing read_error]) = (Ret (None, Some err), w3) /\
           trace w3 = EvLog LevelError "http request failed"
                        [("method", AString (Method post)); ("url", AString (URL post));
                         ("duration", ADuration (elapsed (server 200) O));
                         ("error", AAny err)] :: trace w2
     | (Some resp, None) =>
         logger.RoundTrip (server 200)
           (logger.NewLoggingRoundTripper [logger.WithBodyLogging true])
           post (world_of [failing read_error])
         = (let* resp :=
              logger.logResponse (logger.NewLoggingRoundTripper [logger.WithBodyLogging true])
                {| Method := Method post; URL := URL post; Body := Some 1%nat |}
                resp (elapsed (server 200) O) in
            ret (Some resp, None)) w2
     | _ => False
     end) /\
  (exists w',
     logger.logResponse (logger.NewLoggingRoundTripper [logger.WithBodyLogging true])
       get ok_response (5 * Millisecond) (world_of [failing read_error])
     = (Ret {| StatusCode := 200; RespBody := Some 1%nat |}, w') /\
     trace w' = EvLog LevelInfo "http request completed"
                  [("method", AString (Method get)); ("url", AString (URL get));
                   ("status", AInt 200); ("duration", ADuration (5 * Millisecond))]
                :: EvLog LevelWarn "failed to read response body"
                     [("error", AAny read_error)]
                :: EvClose O :: EvReadAll O :: trace (world_of [failing read_error]) /\
     heap w' !! 1%nat = Some (readable [])).
Proof.
  split.
  - apply (proj1 (RoundTrip_survives_read_failure (server 200)
                    (logger.NewLoggingRoundTripper [logger.WithBodyLogging true]) eq_refl)
             post (world_of [failing read_error]) O (failing read_error) read_error);
      reflexivity.
  - apply (proj2 (RoundTrip_survives_read_failure (server 200)
                    (logger.NewLoggingRoundTripper [logger.WithBodyLogging true]) eq_refl)
             get ok_response (5 * Millisecond) (world_of [failing read_error])
             O (failing read_error) read_error); reflexivity.
Defined.

(** Claim C10.  With [WithRetries n], [n <= 0], and a request whose body,
    if present, is read without error, [Do] does not invoke the transport
    and returns a nil response with the error
    "request failed after n attempts with unknown error". *)
Theorem Do_without_attempts env c n req w :
  n <= 0 -> body_readable req w ->
  exists w',
    Do env (WithRetries n c) req w
    = (Ret (None, Some (errorString ("request failed after " +:+ fmt_d n
                                     +:+ " attempts with unknown error"))), w') /\
    n_calls w' = n_calls w /\
    round_trips (trace w') = round_trips (trace w).
Proof.
  intros Hn Hr. destruct (Body req) as [sid|] eqn:Hb.
  - destruct (Hr sid Hb) as (s & Hs & He).
    rewrite (Do_readable env _ req w sid s Hb Hs He).
    rewrite Do_loop_exit by (simpl; lia).
    eexists. split; [reflexivity|]. split; reflexivity.
  - rewrite (Do_no_body env _ req w Hb).
    rewrite Do_loop_exit by (simpl; lia).
    eexists. split; [reflexivity|]. split; reflexivity.
Qed.

Lemma Do_without_attempts_witness :
  exists w',
    Do (server 200) (WithRetries (-2) (New [])) post (world_of [readable payload])
    = (Ret (None, Some (errorString ("request failed after " +:+ fmt_d (-2)
                                     +:+ " attempts with unknown error"))), w') /\
    n_calls w' = n_calls (world_of [readable payload]) /\
    round_trips (trace w') = round_trips (trace (world_of [readable payload])).
Proof.
  apply (Do_without_attempts (server 200) (New []) (-2) post (world_of [readable payload])).
  - vm_compute. discriminate.
  - intros sid [= <-]. eexists. split; reflexivity.
Defined.

(** ** The scenarios of the specification, run *)

(** Three attempts allowed, delays of 100ms and 5s, a server that answers
    500, 500, 200: three invocations, waits of 100ms and 200ms, status 200. *)
Example scenario_500_500_200 :
  exists b w',
    Do (scripted [ReplyResp 500 (Some ([], None)); ReplyResp 500 (Some ([], None));
                  ReplyResp 200 (Some ([], None))] None)
       (New [WithRetries 3; WithRetryDelay (100 * Millisecond);
             WithMaxRetryWait (5 * Second)])
       get (world_of [])
    = (Ret (Some {| StatusCode := 200; RespBody := Some b |}, None), w') /\
    n_calls w' = 3%nat /\
    sleeps (trace w') = [(200 * Millisecond, TimerFired); (100 * Millisecond, TimerFired)].
Proof. eexists _, _. split_and!; vm_compute; reflexivity. Qed.

(** The body "payload", two attempts allowed, a network error and then a
    success: the transport gets "payload" both times. *)
Example scenario_payload_twice :
  exists b w',
    Do (scripted [ReplyErr network_error] None) (New [WithRetries 2])
       post (world_of [readable payload])
    = (Ret (Some {| StatusCode := 200; RespBody := Some b |}, None), w') /\
    map inv_seen (round_trips (trace w')) = [Some payload; Some payload] /\
    reads_of O (trace w') = 1%nat.
Proof. eexists _, _. split_and!; vm_compute; reflexivity. Qed.

(** A status 404 ends the call at the first of three attempts. *)
Example scenario_404_once :
  exists b w',
    Do (server 404) (New [WithRetries 3]) get (world_of [])
    = (Ret (Some {| StatusCode := 404; RespBody := Some b |}, None), w') /\
    n_calls w' = 1%nat.
Proof. eexists _, _. split_and!; vm_compute; reflexivity. Qed.

(** Under a transport that does not look at the context, a call whose
    context is cancelled during the first backoff wait still makes its
    second attempt and returns the response of that attempt. *)
Example scenario_response_after_cancellation :
  exists b w',
    Do (scripted [ReplyResp 500 (Some ([], None))] (Some O)) (New [WithRetries 3])
       get (world_of [])
    = (Ret (Some {| StatusCode := 200; RespBody := Some b |}, None), w') /\
    sleeps (trace w') = [(100 * Millisecond, CtxDone)] /\
    map inv_cancelled (round_trips (trace w')) = [true; false].
Proof. eexists _, _. split_and!; vm_compute; reflexivity. Qed.

(** The error of a call without attempts, as text. *)
Example error_text_without_attempts :
  Error (Errorf_unknown 0) = "request failed after 0 attempts with unknown error" /\
  Error (Errorf_unknown (-3)) = "request failed after -3 attempts with unknown error".
Proof. split; reflexivity. Qed.

(** ** Further properties of the code *)

(** *** What a call of [Do] does *)

(** X1.  [Do] never invokes the transport more often than [c.Retries] says
    (not at all when that is zero or negative), and it invokes it at least
    once when an attempt is allowed and the body, if any, was read. *)
Theorem Do_attempts_bounded env c req w :
  body_valid req w ->
  exists r w' evs,
    Do env c req w = (Ret r, w') /\
    trace w' = evs ++ trace w /\
    n_calls w' = (n_calls w + length (round_trips evs))%nat /\
    Z.of_nat (length (round_trips evs)) <= Z.max 0 (Retries c) /\
    (body_readable req w -> 1 <= Retries c -> (1 <= length (round_trips evs))%nat).
Proof.
  intros Hv. destruct (body_valid_cases req w Hv) as [Hr|(sid & s & e & Hb & Hs & He)].
  - destruct (Do_effects env c req w Hr)
      as (r & w' & new & evs & Hdo & _ & Ht & _ & Hc & Hk & _ & _ & _ & Hres).
    exists r, w', (evs ++ body_events req w).
    rewrite round_trips_app, round_trips_body_events, app_nil_r.
    split_and!; auto; try lia.
    + rewrite Ht. apply app_assoc.
    + intros _ Hpos. destruct r as [[resp|] [err|]]; simpl in Hres; try contradiction.
      * tauto.
      * destruct Hres as (_ & Hk' & _). lia.
  - destruct (Do_unreadable_effects env c req w sid s e Hb Hs He)
      as (w' & Hdo & _ & Ht & Hc & _).
    exists (None, Some (Errorf_read_body e)), w', (body_events req w).
    rewrite round_trips_body_events. simpl.
    split_and!; auto; try lia.
    intros Hr. destruct (Hr sid Hb) as (s' & Hs' & He'). congruence.
Qed.

Lemma Do_attempts_bounded_witness :
  exists r w' evs,
    Do (server 500) (New [WithRetries 3]) post (world_of [readable payload]) = (Ret r, w') /\
    trace w' = evs ++ trace (world_of [readable payload]) /\
    n_calls w' = (n_calls (world_of [readable payload]) + length (round_trips evs))%nat /\
    Z.of_nat (length (round_trips evs)) <= Z.max 0 (Retries (New [WithRetries 3])) /\
    (body_readable post (world_of [readable payload]) -> 1 <= Retries (New [WithRetries 3]) ->
     (1 <= length (round_trips evs))%nat).
Proof.
  apply (Do_attempts_bounded (server 500) (New [WithRetries 3]) post
           (world_of [readable payload])).
  intros sid [= <-]. eexists. reflexivity.
Defined.



(** X3.  For a request whose body, if any, is read without error, [Do]
    gives up only when the attempts are used up: a response whose status
    calls for a retry, or an error, is returned only after [c.Retries]
    invocations; the error is then the wrapped error of an attempt, and the
    "unknown error" of the end of [Do] is returned only when [c.Retries]
    allows no attempt at all.  (When the read of the body fails, [Do]
    returns the error of the read before any attempt, see claim C6.) *)
Theorem Do_gives_up_only_at_the_end env c req w :
  body_readable req w ->
  exists r w' evs,
    Do env c req w = (Ret r, w') /\
    trace w' = evs ++ trace w /\
    match r with
    | (Some resp, None) =>
        shouldRetry (StatusCode resp) = false \/
        length (round_trips evs) = Z.to_nat (Retries c)
    | (None, Some err) =>
        length (round_trips evs) = Z.to_nat (Retries c) /\
        ((Retries c <= 0 /\ err = Errorf_unknown (Retries c)) \/
         (1 <= Retries c /\ exists e, err = Errorf_attempts (Retries c) e))
    | _ => False
    end.
Proof.
  intros Hr.
  destruct (Do_effects env c req w Hr)
    as (r & w' & new & evs & Hdo & _ & Ht & _ & _ & _ & _ & _ & _ & Hres).
  exists r, w', (evs ++ body_events req w).
  rewrite round_trips_app, round_trips_body_events, app_nil_r.
  split_and!; auto. { rewrite Ht. apply app_assoc. }
  destruct r as [[resp|] [err|]]; simpl in Hres |- *; try contradiction;
    replace (Retries c + 1 - 1) with (Retries c) in Hres by lia.
  - tauto.
  - destruct Hres as (_ & Hk & [[Hk0 ->]|[Hk1 He]]).
    + split; [assumption|]. left. split; [lia|reflexivity].
    + split; [assumption|]. right. split; [lia|assumption].
Qed.

Lemma Do_gives_up_only_at_the_end_witness :
  exists r w' evs,
    Do (server 500) (New [WithRetries 3]) post (world_of [readable payload]) = (Ret r, w') /\
    trace w' = evs ++ trace (world_of [readable payload]) /\
    match r with
    | (Some resp, None) =>
        shouldRetry (StatusCode resp) = false \/
        length (round_trips evs) = Z.to_nat (Retries (New [WithRetries 3]))
    | (None, Some err) =>
        length (round_trips evs) = Z.to_nat (Retries (New [WithRetries 3])) /\
        ((Retries (New [WithRetries 3]) <= 0 /\
          err = Errorf_unknown (Retries (New [WithRetries 3]))) \/
         (1 <= Retries (New [WithRetries 3]) /\
          exists e, err = Errorf_attempts (Retries (New [WithRetries 3])) e))
    | _ => False
    end.
Proof.
  apply (Do_gives_up_only_at_the_end (server 500) (New [WithRetries 3]) post
           (world_of [readable payload])).
  intros sid [= <-]. eexists. split; reflexivity.
Defined.

(** X4.  [Do] leaves no stream open but the one it hands over: when it
    returns, the body of the request is as the read left it (closed, when
    the read succeeded), no other stream that existed is touched, and of
    the streams made during the call (the readers over the buffered body,
    the bodies of the responses) all are closed except the body of the
    response that is returned. *)
Theorem Do_closes_what_it_opens env c req w :
  body_valid req w ->
  exists r w' new,
    Do env c req w = (Ret r, w') /\
    heap w' = heap_after_body req w ++ new /\
    match r with
    | (Some resp, _) =>
        exists pre sr, new = pre ++ [sr] /\ all_closed pre /\ s_closed sr = false /\
                       RespBody resp = Some (length (heap w) + length pre)%nat
    | (None, _) => all_closed new
    end.
Proof.
  intros Hv. destruct (body_valid_cases req w Hv) as [Hr|(sid & s & e & Hb & Hs & He)].
  - destruct (Do_effects env c req w Hr)
      as (r & w' & new & evs & Hdo & Hh & _ & _ & _ & _ & _ & _ & _ & Hres).
    exists r, w', new. split_and!; auto.
    destruct r as [[resp|] [err|]]; simpl in Hres |- *; try contradiction; tauto.
  - destruct (Do_unreadable_effects env c req w sid s e Hb Hs He)
      as (w' & Hdo & Hh & _).
    exists (None, Some (Errorf_read_body e)), w', []. rewrite app_nil_r.
    split_and!; auto. apply Forall_nil_2.
Qed.

Lemma Do_closes_what_it_opens_witness :
  exists r w' new,
    Do (server 500) (New [WithRetries 3]) post (world_of [readable payload]) = (Ret r, w') /\
    heap w' = heap_after_body post (world_of [readable payload]) ++ new /\
    match r with
    | (Some resp, _) =>
        exists pre sr, new = pre ++ [sr] /\ all_closed pre /\ s_closed sr = false /\
                       RespBody resp
                       = Some (length (heap (world_of [readable payload])) + length pre)%nat
    | (None, _) => all_closed new
    end.
Proof.
  apply (Do_closes_what_it_opens (server 500) (New [WithRetries 3]) post
           (world_of [readable payload])).
  intros sid [= <-]. eexists. reflexivity.
Defined.

(** X5.  When the first [k] replies of the transport call for another try (an
    error, or a status that [shouldRetry] accepts), the next reply is a
    response with any other status, and [c.Retries] allows [k + 1] attempts,
    [Do] makes exactly [k + 1] invocations and returns the response of the
    last one, with a nil error. *)
Theorem Do_returns_first_final_response env c req w k :
  Z.of_nat (S k) <= Retries c ->
  body_readable req w ->
  (forall j rq seen cn, (j < k)%nat ->
     retryable (transport env (n_calls w + j) rq seen cn) = true) ->
  (forall rq seen cn, exists status body,
     transport env (n_calls w + k) rq seen cn = ReplyResp status body /\
     shouldRetry status = false) ->
  exists resp w' req' w1,
    Do env c req w = (Ret (Some resp, None), w') /\
    shouldRetry (StatusCode resp) = false /\
    n_calls w' = (n_calls w + S k)%nat /\
    n_calls w1 = (n_calls w + k)%nat /\
    HttpClient_Do env req' w1 = (Ret (Some resp, None), w').
Proof.
  intros Hk Hr Hre Hlast.
  destruct (Do_as_loop env c req w Hr) as (bb & w0 & Hdo & _ & _ & Hc0 & _ & Hinv & _).
  rewrite Hdo. clear Hdo.
  destruct (Do_loop_retries env c bb k 1 req None w0 Hinv ltac:(lia))
    as (req1 & le1 & w1 & Hinv1 & Hc1 & Hloop).
  { intros j rq sn cn Hj. rewrite Hc0. apply Hre. assumption. }
  replace (Z.to_nat (Retries c)) with (k + S (Z.to_nat (Retries c) - S k))%nat by lia.
  rewrite Hloop.
  destruct (Do_attempt_spec env c req1 bb le1 (1 + Z.of_nat k) w1 Hinv1)
    as (req' & w2 & r & w3 & st & w' & Hres & _ & _ & Hc2 & _ & _ & Hhttp & _ & Hc3 & _ & _
        & Hatt & Hstep & _ & Hsame).
  rewrite (Do_loop_step env c _ req1 bb le1 (1 + Z.of_nat k) w1 st w' ltac:(lia) Hatt).
  destruct (HttpClient_Do_reply _ _ _ _ _ Hhttp) as (seen & Hrep).
  destruct (Hlast req' seen (cancelled w2)) as (status & body & Hreply & Hno).
  rewrite Hc2, Hc1, Hc0, Hreply in Hrep. destruct Hrep as (b & ->).
  simpl in Hstep. rewrite Hno in Hstep. simpl in Hstep. injection Hstep as <-.
  rewrite (Hsame _ eq_refl ltac:(discriminate)).
  exists {| StatusCode := status; RespBody := Some b |}, w3, req', w2.
  split_and!; auto; lia.
Qed.

Lemma Do_returns_first_final_response_witness :
  exists resp w' req' w1,
    Do flaky (New [WithRetries 5]) post (world_of [readable payload])
    = (Ret (Some resp, None), w') /\
    shouldRetry (StatusCode resp) = false /\
    n_calls w' = (n_calls (world_of [readable payload]) + 3)%nat /\
    n_calls w1 = (n_calls (world_of [readable payload]) + 2)%nat /\
    HttpClient_Do flaky req' w1 = (Ret (Some resp, None), w').
Proof.
  apply (Do_returns_first_final_response flaky (New [WithRetries 5]) post
           (world_of [readable payload]) 2).
  - vm_compute. discriminate.
  - intros sid [= <-]. eexists. split; reflexivity.
  - intros j rq seen cn Hj. destruct j as [|[|j]]; [reflexivity|reflexivity|lia].
  - intros rq seen cn. eexists _, _. split; reflexivity.
Defined.

(** X6.  When the last allowed attempt ends in a transport error [e], the
    replies before it calling for another try, [Do] makes [c.Retries]
    invocations and returns a nil response and the error
    "request failed after N attempts: ..." that wraps [e], so that [e] can
    be found again with [Unwrap]. *)
Theorem Do_wraps_last_error env c req w k :
  Retries c = Z.of_nat (S k) ->
  body_readable req w ->
  (forall j rq seen cn, (j < k)%nat ->
     retryable (transport env (n_calls w + j) rq seen cn) = true) ->
  (forall rq seen cn, exists e, transport env (n_calls w + k) rq seen cn = ReplyErr e) ->
  exists e err w' req' w1 w2,
    Do env c req w = (Ret (None, Some err), w') /\
    Unwrap err = Some e /\
    Error err = "request failed after " +:+ fmt_d (Retries c) +:+ " attempts: " +:+ Error e /\
    n_calls w' = (n_calls w + S k)%nat /\
    n_calls w1 = (n_calls w + k)%nat /\
    HttpClient_Do env req' w1 = (Ret (None, Some e), w2).
Proof.
  intros Hk Hr Hre Hlast.
  destruct (Do_as_loop env c req w Hr) as (bb & w0 & Hdo & _ & _ & Hc0 & _ & Hinv & _).
  rewrite Hdo. clear Hdo.
  destruct (Do_loop_retries env c bb k 1 req None w0 Hinv ltac:(lia))
    as (req1 & le1 & w1 & Hinv1 & Hc1 & Hloop).
  { intros j rq sn cn Hj. rewrite Hc0. apply Hre. assumption. }
  replace (Z.to_nat (Retries c)) with (k + 1)%nat by lia.
  rewrite Hloop.
  destruct (Do_attempt_spec env c req1 bb le1 (1 + Z.of_nat k) w1 Hinv1)
    as (req' & w2 & r & w3 & st & w' & Hres & _ & _ & Hc2 & _ & _ & Hhttp & _ & Hc3 & _ & _
        & Hatt & Hstep & (Hsc & _) & _).
  rewrite (Do_loop_step env c _ req1 bb le1 (1 + Z.of_nat k) w1 st w' ltac:(lia) Hatt).
  destruct (HttpClient_Do_reply _ _ _ _ _ Hhttp) as (seen & Hrep).
  destruct (Hlast req' seen (cancelled w2)) as (e & Hreply).
  rewrite Hc2, Hc1, Hc0, Hreply in Hrep. subst r.
  simpl in Hstep.
  replace (1 + Z.of_nat k >=? Retries c) with true in Hstep
    by (symmetry; rewrite Z.geb_leb; apply Z.leb_le; lia).
  injection Hstep as <-.
  exists e, (Errorf_attempts (Retries c) e), w', req', w2, w3.
  split_and!; auto; try reflexivity; lia.
Qed.

Lemma Do_wraps_last_error_witness :
  exists e err w' req' w1 w2,
    Do failing_twice (New [WithRetries 2]) post (world_of [readable payload])
    = (Ret (None, Some err), w') /\
    Unwrap err = Some e /\
    Error err = "request failed after " +:+ fmt_d (Retries (New [WithRetries 2]))
                +:+ " attempts: " +:+ Error e /\
    n_calls w' = (n_calls (world_of [readable payload]) + 2)%nat /\
    n_calls w1 = (n_calls (world_of [readable payload]) + 1)%nat /\
    HttpClient_Do failing_twice req' w1 = (Ret (None, Some e), w2).
Proof.
  apply (Do_wraps_last_error failing_twice (New [WithRetries 2]) post
           (world_of [readable payload]) 1).
  - reflexivity.
  - intros sid [= <-]. eexists. split; reflexivity.
  - intros j rq seen cn Hj. destruct j as [|j]; [reflexivity|lia].
  - intros rq seen cn. eexists. reflexivity.
Defined.

(** X7.  For a request without body [Do] reads nothing, touches no stream
    that exists, and every invocation of the transport gets a request
    without body. *)
Theorem Do_without_body env c req w :
  Body req = None ->
  exists r w' new evs,
    Do env c req w = (Ret r, w') /\
    trace w' = evs ++ trace w /\
    heap w' = heap w ++ new /\
    (forall sid, reads_of sid evs = O) /\
    Forall (fun i => inv_seen i = None /\ inv_body i = None) (round_trips evs).
Proof.
  intros Hb.
  assert (Hr : body_readable req w) by (intros sid Hs; congruence).
  destruct (Do_effects env c req w Hr)
    as (r & w' & new & evs & Hdo & Hh & Ht & Hd & _ & _ & _ & _ & Hf & _).
  unfold heap_after_body, body_events in *. rewrite Hb in *.
  exists r, w', new, evs. split_and!; auto.
Qed.

Lemma Do_without_body_witness :
  exists r w' new evs,
    Do (server 500) (New [WithRetries 3]) get (world_of []) = (Ret r, w') /\
    trace w' = evs ++ trace (world_of []) /\
    heap w' = heap (world_of []) ++ new /\
    (forall sid, reads_of sid evs = O) /\
    Forall (fun i => inv_seen i = None /\ inv_body i = None) (round_trips evs).
Proof.
  apply (Do_without_body (server 500) (New [WithRetries 3]) get (world_of [])).
  reflexivity.
Defined.

(** *** The logging round tripper *)

Lemma logRequest_ok l req w body s :
  logger.logBodies l = true -> 0 <= logger.maxBodySize l ->
  Body req = Some body -> heap w !! body = Some s -> s_err s = None ->
  exists text,
    logger.logRequest l req w
    = (Ret {| Method := Method req; URL := URL req; Body := Some (length (heap w)) |},
       {| heap := heap (after_read body s w) ++ [readable (s_data s)];
          trace := EvLog LevelDebug "http request body" [("body", AString text)]
                   :: EvClose body :: EvReadAll body :: trace w;
          n_calls := n_calls w; n_waits := n_waits w; cancelled := cancelled w |}).
Proof.
  intros Hlog Hl Hb Hs He. eexists.
  unfold logger.logRequest. rewrite Hlog, Hb. cbn [negb].
  step (readBody_ok body (logger.maxBodySize l) w s Hs He Hl). reflexivity.
Qed.

Lemma logResponse_captured l req resp duration w body s :
  logger.logBodies l = true -> 0 <= logger.maxBodySize l ->
  RespBody resp = Some body -> heap w !! body = Some s ->
  exists w',
    logger.logResponse l req resp duration w
    = (Ret {| StatusCode := StatusCode resp; RespBody := Some (length (heap w)) |}, w') /\
    heap w' !! length (heap w)
    = Some (readable (match s_err s with None => s_data s | Some _ => [] end)) /\
    round_trips (trace w') = round_trips (trace w).
Proof.
  intros Hlog Hl Hb Hs. unfold logger.logResponse. rewrite Hlog, Hb.
  destruct (s_err s) as [e|] eqn:He.
  - eexists. split.
    { unfold bind at 1. unfold bind at 1.
      rewrite (readBody_fail body _ w s e Hs He). reflexivity. }
    split; [apply after_capture_fresh|reflexivity].
  - eexists. split.
    { unfold bind at 1. unfold bind at 1.
      rewrite (readBody_ok body _ w s Hs He Hl). reflexivity. }
    split; [apply after_capture_fresh|reflexivity].
Qed.

(** X8.  With body capture disabled, [RoundTrip] is the transport and one
    log record: it returns what [next.RoundTrip] returns for the same
    request, reads no body, and writes the error record or the completion
    record after it. *)
Theorem RoundTrip_without_capture env l req w :
  logger.logBodies l = false -> body_valid req w ->
  exists res w1 w2,
    Transport_RoundTrip env req w = (Ret res, w1) /\
    exactly_one res /\
    emit (completion_record env req w res) w1 = (Ret tt, w2) /\
    logger.RoundTrip env l req w = (Ret res, w2).
Proof.
  intros Hlog Hv. destruct (take_body_valid req w Hv) as (seen & h & Htb).
  pose proof (Transport_RoundTrip_run env req w seen h Htb) as Hrun.
  unfold logger.RoundTrip, logger.logRequest. rewrite Hlog. cbn [negb].
  unfold bind at 1. unfold ret at 1. unfold bind at 1. unfold bind at 1.
  rewrite Hrun.
  destruct (transport env (n_calls w) req seen (cancelled w)) as [e|st [[d e]|]].
  - eexists _, _, _. split_and!; try reflexivity; try exact I.
  - eexists _, _, _. split_and!; try reflexivity; try exact I.
    unfold logger.logResponse. rewrite Hlog. reflexivity.
  - eexists _, _, _. split_and!; try reflexivity; try exact I.
    unfold logger.logResponse. rewrite Hlog. reflexivity.
Qed.

Lemma RoundTrip_without_capture_witness :
  exists res w1 w2,
    Transport_RoundTrip (server 200) post (world_of [readable payload]) = (Ret res, w1) /\
    exactly_one res /\
    emit (completion_record (server 200) post (world_of [readable payload]) res) w1
    = (Ret tt, w2) /\
    logger.RoundTrip (server 200) (logger.NewLoggingRoundTripper []) post
      (world_of [readable payload]) = (Ret res, w2).
Proof.
  apply (RoundTrip_without_capture (server 200) (logger.NewLoggingRoundTripper []) post
           (world_of [readable payload])).
  - reflexivity.
  - intros sid [= <-]. eexists. reflexivity.
Defined.

(** X9.  With body capture enabled under a limit that is not negative, and a
    request body that is read without error: the transport is invoked once,
    with a new stream from which it gets all the bytes of the body; its
    error comes back as it is; its response comes back with the same status
    and, when it has a body, with a new stream that holds all the bytes of
    that body (none when their read failed). *)
Theorem RoundTrip_with_capture env l req w body s :
  logger.logBodies l = true -> 0 <= logger.maxBodySize l ->
  Body req = Some body -> heap w !! body = Some s -> s_err s = None ->
  exists r w',
    logger.RoundTrip env l req w = (Ret r, w') /\
    round_trips (trace w')
    = {| inv_idx := n_calls w; inv_body := Some (length (heap w));
         inv_seen := Some (s_data s); inv_cancelled := cancelled w |}
      :: round_trips (trace w) /\
    match transport env (n_calls w)
            {| Method := Method req; URL := URL req; Body := Some (length (heap w)) |}
            (Some (s_data s)) (cancelled w) with
    | ReplyErr e => r = (None, Some e)
    | ReplyResp status None =>
        r = (Some {| StatusCode := status; RespBody := None |}, None)
    | ReplyResp status (Some (data, err)) =>
        exists b,
          r = (Some {| StatusCode := status; RespBody := Some b |}, None) /\
          heap w' !! b = Some (readable (match err with None => data | Some _ => [] end))
    end.
Proof.
  intros Hlog Hl Hb Hs He.
  destruct (logRequest_ok l req w body s Hlog Hl Hb Hs He) as (text & Hreq).
  set (req1 := {| Method := Method req; URL := URL req; Body := Some (length (heap w)) |}) in *.
  set (w1 := {| heap := heap (after_read body s w) ++ [readable (s_data s)];
                trace := EvLog LevelDebug "http request body" [("body", AString text)]
                         :: EvClose body :: EvReadAll body :: trace w;
                n_calls := n_calls w; n_waits := n_waits w; cancelled := cancelled w |}) in *.
  assert (Htb : take_body (Body req1) (heap w1)
                = Some (Some (s_data s),
                        heap (after_read body s w) ++ [closed (drained (readable (s_data s)))])).
  { unfold req1, w1. cbn [Body heap].
    rewrite <- (after_read_length body s w) at 1.
    exact (take_body_fresh (heap (after_read body s w)) (readable (s_data s))). }
  pose proof (Transport_RoundTrip_run env req1 w1 _ _ Htb) as Hrun.
  unfold logger.RoundTrip. step Hreq. unfold bind at 1. unfold bind at 1. rewrite Hrun.
  change (n_calls w1) with (n_calls w). change (cancelled w1) with (cancelled w).
  destruct (transport env (n_calls w) req1 (Some (s_data s)) (cancelled w))
    as [e|status [[data err]|]].
  - eexists _, _. split; [reflexivity|]. split; reflexivity.
  - set (h2 := heap (after_read body s w) ++ [closed (drained (readable (s_data s)))]).
    set (s2 := {| s_data := data; s_err := err; s_closed := false |}).
    set (w2 := after_round_trip req1 (Some (s_data s)) (h2 ++ [s2]) w1).
    destruct (logResponse_captured l req1
                {| StatusCode := status; RespBody := Some (length h2) |}
                (elapsed env (n_calls w)) w2 (length h2) s2 Hlog Hl eq_refl)
      as (w3 & Hresp & Hheap & Hrt).
    { unfold w2. cbn [after_round_trip heap]. apply list_lookup_middle. reflexivity. }
    cbv beta iota. step Hresp.
    eexists _, w3. split; [reflexivity|]. rewrite Hrt. split; [reflexivity|].
    eexists. split; [reflexivity|]. exact Hheap.
  - eexists _, _. split.
    { cbv beta iota. unfold logger.logResponse. rewrite Hlog. reflexivity. }
    split; reflexivity.
Qed.

Lemma RoundTrip_with_capture_witness :
  exists r w',
    logger.RoundTrip echo capturing post (world_of [readable payload]) = (Ret r, w') /\
    round_trips (trace w')
    = {| inv_idx := n_calls (world_of [readable payload]);
         inv_body := Some (length (heap (world_of [readable payload])));
         inv_seen := Some (s_data (readable payload));
         inv_cancelled := cancelled (world_of [readable payload]) |}
      :: round_trips (trace (world_of [readable payload])) /\
    exists b,
      r = (Some {| StatusCode := 200; RespBody := Some b |}, None) /\
      heap w' !! b = Some (readable payload).
Proof.
  apply (RoundTrip_with_capture echo capturing post (world_of [readable payload])
           O (readable payload)); try reflexivity.
  vm_compute. discriminate.
Defined.

(** X10.  [readBody] reads the stream it is given once and closes it, also
    when the read fails; it makes exactly one new stream, the one it
    returns, and touches no other; and the error it returns is the error of
    the read.  (Under a negative limit and a read without error it panics,
    see the counterexample of claim C7.) *)
Theorem readBody_releases_original body limit w s :
  heap w !! body = Some s ->
  0 <= limit \/ s_err s <> None ->
  exists kept r w',
    logger.readBody body limit w = (Ret (kept, r, s_err s), w') /\
    trace w' = EvClose body :: EvReadAll body :: trace w /\
    heap w' !! body = Some (closed (drained s)) /\
    r = length (heap w) /\
    length (heap w') = S (length (heap w)) /\
    (forall i, i <> body -> (i < length (heap w))%nat -> heap w' !! i = heap w !! i).
Proof.
  intros Hs Hcase.
  assert (Hlt : (body < length (heap w))%nat) by (eapply lookup_lt_Some; eassumption).
  assert (Hcommon : forall data,
    heap (after_capture body s data w) !! body = Some (closed (drained s)) /\
    length (heap (after_capture body s data w)) = S (length (heap w)) /\
    (forall i, i <> body -> (i < length (heap w))%nat ->
               heap (after_capture body s data w) !! i = heap w !! i)).
  { intros data. unfold after_capture, set_heap, after_read. cbn [heap]. split_and!.
    - rewrite lookup_app_l by (rewrite !length_insert; assumption).
      apply list_lookup_insert_eq. rewrite length_insert. assumption.
    - rewrite length_app, !length_insert. simpl. lia.
    - intros i Hne Hi. rewrite lookup_app_l by (rewrite !length_insert; assumption).
      rewrite !list_lookup_insert_ne by congruence. reflexivity. }
  destruct (s_err s) as [e|] eqn:He.
  - rewrite (readBody_fail body limit w s e Hs He).
    destruct (Hcommon []) as (H1 & H2 & H3).
    eexists _, _, _. split; [reflexivity|]. split_and!; auto.
  - destruct Hcase as [Hl|Hne]; [|congruence].
    rewrite (readBody_ok body limit w s Hs He Hl).
    destruct (Hcommon (s_data s)) as (H1 & H2 & H3).
    eexists _, _, _. split; [reflexivity|]. split_and!; auto.
Qed.

Lemma readBody_releases_original_witness :
  exists kept r w',
    logger.readBody O 3 (world_of [readable payload])
    = (Ret (kept, r, s_err (readable payload)), w') /\
    trace w' = EvClose O :: EvReadAll O :: trace (world_of [readable payload]) /\
    heap w' !! O = Some (closed (drained (readable payload))) /\
    r = length (heap (world_of [readable payload])) /\
    length (heap w') = S (length (heap (world_of [readable payload]))) /\
    (forall i, i <> O -> (i < length (heap (world_of [readable payload])))%nat ->
               heap w' !! i = heap (world_of [readable payload]) !! i).
Proof.
  apply (readBody_releases_original O 3 (world_of [readable payload]) (readable payload)).
  - reflexivity.
  - left. vm_compute. discriminate.
Defined.

(** X11.  [logRequest] leaves the request and the world as they are exactly
    when body capture is disabled or the request has no body. *)
Theorem logRequest_untouched_iff l req w :
  body_valid req w ->
  logger.logRequest l req w = (Ret req, w) <->
  logger.logBodies l = false \/ Body req = None.
Proof.
  intros Hv. split.
  - intros Heq. destruct (logger.logBodies l) eqn:Hlog; [|left; reflexivity].
    destruct (Body req) as [body|] eqn:Hb; [|right; reflexivity].
    exfalso. destruct (Hv body Hb) as [s Hs].
    destruct (s_err s) as [e|] eqn:He.
    + rewrite (logRequest_fail l req w body s e Hlog Hb Hs He) in Heq.
      injection Heq as _ Hw. apply (f_equal trace) in Hw. simpl in Hw.
      apply (f_equal length) in Hw. simpl in Hw. lia.
    + destruct (Z_lt_le_dec (logger.maxBodySize l) 0) as [Hneg|Hl].
      * unfold logger.logRequest in Heq. rewrite Hlog, Hb in Heq. cbn [negb] in Heq.
        unfold bind at 1 in Heq.
        rewrite (readBody_negative_limit body _ w s Hs He Hneg) in Heq. discriminate.
      * destruct (logRequest_ok l req w body s Hlog Hl Hb Hs He) as (text & Hok).
        rewrite Hok in Heq.
        injection Heq as _ Hw. apply (f_equal trace) in Hw. simpl in Hw.
        apply (f_equal length) in Hw. simpl in Hw. lia.
  - intros [Hlog|Hb]; unfold logger.logRequest.
    + rewrite Hlog. reflexivity.
    + rewrite Hb. destruct (logger.logBodies l); reflexivity.
Qed.

Lemma logRequest_untouched_iff_witness :
  logger.logRequest capturing get (world_of []) = (Ret get, world_of []) <->
  logger.logBodies capturing = false \/ Body get = None.
Proof.
  apply (logRequest_untouched_iff capturing get (world_of [])).
  intros sid [=].
Defined.

(** *** The backoff delay *)

(** X12.  For a delay that is not negative and as long as the doubling stays
    in the 64-bit range, the delay after attempt [k] is
    [min(RetryDelay * 2^(k-1), MaxRetryWait)]; the delays do not decrease
    from one attempt to the next, never exceed [MaxRetryWait], and stay at
    [MaxRetryWait] once they have reached it. *)
Theorem retryDelay_grows_to_cap c k :
  0 <= RetryDelay c -> 1 <= k <= 62 ->
  Int64.in_range (RetryDelay c * 2 ^ k) ->
  retryDelay c k = Z.min (RetryDelay c * 2 ^ (k - 1)) (MaxRetryWait c) /\
  retryDelay c k <= retryDelay c (k + 1) <= MaxRetryWait c /\
  (retryDelay c k = MaxRetryWait c -> retryDelay c (k + 1) = MaxRetryWait c).
Proof.
  intros Hd Hk Hr.
  assert (Hp : 2 ^ k = 2 * 2 ^ (k - 1)).
  { replace k with (Z.succ (k - 1)) at 1 by lia. apply Z.pow_succ_r. lia. }
  assert (Hpos : 0 < 2 ^ (k - 1)) by (apply Z.pow_pos_nonneg; lia).
  assert (Hr' : Int64.in_range (RetryDelay c * 2 ^ (k - 1))).
  { unfold Int64.in_range, Int64.min_int, Int64.max_int in *. nia. }
  rewrite (retryDelay_in_range c k) by (assumption || lia).
  rewrite (retryDelay_in_range c (k + 1))
    by (try lia; replace (k + 1 - 1) with k by lia; assumption).
  replace (k + 1 - 1) with k by lia. rewrite Hp.
  split; [reflexivity|]. nia.
Qed.

Lemma retryDelay_grows_to_cap_witness :
  retryDelay (New []) 3
  = Z.min (RetryDelay (New []) * 2 ^ (3 - 1)) (MaxRetryWait (New [])) /\
  retryDelay (New []) 3 <= retryDelay (New []) (3 + 1) <= MaxRetryWait (New []) /\
  (retryDelay (New []) 3 = MaxRetryWait (New []) ->
   retryDelay (New []) (3 + 1) = MaxRetryWait (New [])).
Proof.
  apply (retryDelay_grows_to_cap (New []) 3).
  - vm_compute. discriminate.
  - split; vm_compute; discriminate.
  - split; vm_compute; discriminate.
Defined.

(** X13.  From attempt 65 on the shift count is 64 or more, the factor is 0,
    and the delay is 0 (or [MaxRetryWait], if that is negative): the
    backoff is gone. *)
Theorem retryDelay_vanishes c attempt :
  65 <= attempt <= Int64.max_int ->
  retryDelay c attempt = Z.min 0 (MaxRetryWait c).
Proof.
  intros Ha. unfold Int64.max_int in Ha.
  unfold retryDelay, Int64.mul, Int64.sub, Int64.shl, Int64.to_uint.
  rewrite (wrap_in_range (attempt - 1))
    by (unfold Int64.in_range, Int64.min_int, Int64.max_int; lia).
  rewrite (Z.mod_small (attempt - 1)) by lia.
  replace (64 <=? attempt - 1) with true by (symmetry; apply Z.leb_le; lia).
  rewrite Z.mul_0_r. change (Int64.wrap 0) with 0.
  destruct (0 >? MaxRetryWait c) eqn:E; lia.
Qed.

Lemma retryDelay_vanishes_witness :
  retryDelay (New []) 65 = Z.min 0 (MaxRetryWait (New [])).
Proof.
  apply (retryDelay_vanishes (New []) 65).
  split; vm_compute; discriminate.
Defined.

(** *** The constructors *)

(** X14.  [New] applies its options from left to right over the defaults: a
    later [WithRetries] replaces an earlier one, [WithRetries] changes no
    other field, and the four options together fix the client whatever
    came before. *)
Theorem New_options opts :
  (forall a b, New (opts ++ [WithRetries a; WithRetries b]) = New (opts ++ [WithRetries b])) /\
  (forall n, Retries (New (opts ++ [WithRetries n])) = n /\
             RetryDelay (New (opts ++ [WithRetries n])) = RetryDelay (New opts) /\
             MaxRetryWait (New (opts ++ [WithRetries n])) = MaxRetryWait (New opts) /\
             Timeout (New (opts ++ [WithRetries n])) = Timeout (New opts)) /\
  (forall n d m t,
      New (opts ++ [WithRetries n; WithRetryDelay d; WithMaxRetryWait m; WithTimeout t])
      = {| Timeout := t; Retries := n; RetryDelay := d; MaxRetryWait := m |}).
Proof.
  unfold New. split_and!; intros; rewrite ?fold_left_app; simpl; repeat split.
Qed.

(** X15.  [NewLoggingRoundTripper] applies its options from left to right:
    the last [WithBodyLogging] and the last [WithMaxBodySize] count, and the
    two do not interfere. *)
Theorem NewLoggingRoundTripper_options opts :
  (forall a b,
      logger.NewLoggingRoundTripper (opts ++ [logger.WithBodyLogging a; logger.WithBodyLogging b])
      = logger.NewLoggingRoundTripper (opts ++ [logger.WithBodyLogging b])) /\
  (forall a b,
      logger.NewLoggingRoundTripper (opts ++ [logger.WithMaxBodySize a; logger.WithMaxBodySize b])
      = logger.NewLoggingRoundTripper (opts ++ [logger.WithMaxBodySize b])) /\
  (forall enabled size,
      logger.NewLoggingRoundTripper
        (opts ++ [logger.WithBodyLogging enabled; logger.WithMaxBodySize size])
      = {| logger.logBodies := enabled; logger.maxBodySize := size |} /\
      logger.NewLoggingRoundTripper
        (opts ++ [logger.WithMaxBodySize size; logger.WithBodyLogging enabled])
      = {| logger.logBodies := enabled; logger.maxBodySize := size |}).
Proof.
  unfold logger.NewLoggingRoundTripper.
  split_and!; intros; rewrite ?fold_left_app; simpl; repeat split.
Qed.

(** *** examples/main.go *)

(** X16.  [limitString] with a bound that is not negative returns the first
    [maxLen] bytes of the string (all of a shorter one), so a string of
    [min(len(s), maxLen)] bytes, and does nothing to a string it has
    already cut; with a negative bound it panics. *)
Theorem limitString_prefix s maxLen :
  (0 <= maxLen ->
   limitString s maxLen = Ret (take (Z.to_nat maxLen) s) /\
   Z.of_nat (length (take (Z.to_nat maxLen) s)) = Z.min (Z.of_nat (length s)) maxLen /\
   limitString (take (Z.to_nat maxLen) s) maxLen = Ret (take (Z.to_nat maxLen) s)) /\
  (maxLen < 0 -> limitString s maxLen = Panic slice_bounds).
Proof.
  split.
  - intros Hm.
    assert (Hlen : Z.of_nat (length (take (Z.to_nat maxLen) s))
                   = Z.min (Z.of_nat (length s)) maxLen).
    { rewrite length_take. lia. }
    assert (H1 : forall t, limitString t maxLen = Ret (take (Z.to_nat maxLen) t)).
    { intros t. unfold limitString.
      destruct (Z.of_nat (length t) <=? maxLen) eqn:E.
      - apply Z.leb_le in E. rewrite take_ge by lia. reflexivity.
      - replace (maxLen <? 0) with false by (symmetry; apply Z.ltb_ge; lia). reflexivity. }
    split_and!; auto.
    rewrite H1. f_equal. apply take_ge. lia.
  - intros Hm. unfold limitString.
    replace (Z.of_nat (length s) <=? maxLen) with false by (symmetry; apply Z.leb_gt; lia).
    replace (maxLen <? 0) with true by (symmetry; apply Z.ltb_lt; lia). reflexivity.
Qed.

Lemma limitString_prefix_witness :
  (limitString payload 3 = Ret (take (Z.to_nat 3) payload) /\
   Z.of_nat (length (take (Z.to_nat 3) payload)) = Z.min (Z.of_nat (length payload)) 3 /\
   limitString (take (Z.to_nat 3) payload) 3 = Ret (take (Z.to_nat 3) payload)) /\
  limitString payload (-1) = Panic slice_bounds.
Proof.
  split.
  - apply (proj1 (limitString_prefix payload 3)). vm_compute. discriminate.
  - apply (proj2 (limitString_prefix payload (-1))). reflexivity.
Defined.
